(** * Wave-U-Net with dilated convolutions: assembly and forward pass

    A shallow embedding of [src/models/unet_dilation.py].

    - [Py]: the fragment of Python the constructor relies on (exceptions,
      [range], list indexing, [in], [list.index], truthiness).
    - [nn]: the PyTorch layers the file instantiates, as plain data: their
      constructor arguments and, for the normalisation, the [training] flag
      that every [nn.Module] is created with.
    - [torch]: tensors as handles (storage cell, sizes, time stride) over a
      store of storages, with the shape rules and the aliasing behaviour of
      the primitives the forward pass calls.  Numeric contents are kept
      symbolic: a storage holds the expression that produced it.
    - [DownSamplingLayer], [UpSamplingLayer], [UNet]: the three classes.

    [utils.utils.calculate_same_padding] is imported by the source but is not
    part of it; the constructor takes it as a parameter. *)

From Stdlib Require Import ZArith QArith Lia.
From stdpp Require Import base numbers list.

Local Open Scope Z_scope.

(** ** Python *)

Module Py.

Inductive exception : Type :=
| TypeError      (* subscripting [None] *)
| IndexError     (* list index out of range *)
| ValueError     (* [list.index] of a missing element; BatchNorm1d in training
                    mode on a single value per channel *)
| RuntimeError.  (* raised by torch on incompatible shapes *)

Inductive result (A : Type) : Type :=
| OK (a : A)
| Raise (e : exception).
Arguments OK {A} a.
Arguments Raise {A} e.

Definition bind {A B} (m : result A) (k : A → result B) : result B :=
  match m with
  | OK a => k a
  | Raise e => Raise e
  end.

(** [range(start, stop)] *)
Definition range (start stop : Z) : list Z := seqZ start (stop - start).

(** [len(l)] *)
Definition len {A} (l : list A) : Z := Z.of_nat (length l).

(** [l[i]], negative indices counting from the end *)
Definition getitem {A} (l : list A) (i : Z) : result A :=
  let j := if decide (i < 0) then i + len l else i in
  if decide (0 ≤ j) then
    match l !! Z.to_nat j with
    | Some x => OK x
    | None => Raise IndexError
    end
  else Raise IndexError.

(** [x in l] *)
Definition contains (x : Z) (l : list Z) : bool := bool_decide (x ∈ l).

(** [l.index(x)]: position of the first occurrence *)
Definition index (l : list Z) (x : Z) : result Z :=
  match list_find (λ y, y = x) l with
  | Some (j, _) => OK (Z.of_nat j)
  | None => Raise ValueError
  end.

(** Truth value of a variable that holds [None] or an [int]. *)
Definition truthy (v : option Z) : bool :=
  match v with
  | None => false
  | Some z => bool_decide (z ≠ 0)
  end.

(** A [for] loop whose body may raise and that appends one element per
    iteration to an initially empty list. *)
Fixpoint for_append {A} (body : Z → result A) (iter : list Z) : result (list A) :=
  match iter with
  | [] => OK []
  | i :: iter =>
      bind (body i) (λ x, bind (for_append body iter) (λ xs, OK (x :: xs)))
  end.

End Py.

Import Py.

Notation "'let!' x ':=' m 'in' k" := (Py.bind m (λ x, k))
  (at level 10, x pattern, m at level 100, k at level 200).

(** ** torch.nn layers

    A layer is the constructor arguments it is built from.  [BatchNorm1d]
    also carries [self.training], the one piece of module state its forward
    reads here: [nn.Module.__init__] sets it to [True], [train(mode)] and
    [eval()] change it. *)

Module nn.

Inductive module : Type :=
| Conv1d (in_channels out_channels kernel_size stride padding dilation : Z)
| BatchNorm1d (num_features : Z) (training : bool)
| LeakyReLU (negative_slope : Q) (inplace : bool)
| Tanh.

Definition Sequential : Type := list module.

(** [nn.Module.train(mode)] on one layer *)
Definition train (mode : bool) (m : module) : module :=
  match m with
  | BatchNorm1d num_features _ => BatchNorm1d num_features mode
  | m => m
  end.

End nn.

(** The dictionary [{"layers": [...], "dilated_rates": [...]}]. *)
Record DilationConfig : Type := {
  layers : list Z;
  dilated_rates : list Z
}.

(** ** Tensors

    A tensor is a handle: the storage cell it reads, the stride between
    consecutive time samples, and its sizes [(N, C, L)].  Several handles
    may share one storage (a slice is a view).  The contents of a storage
    are symbolic: the expression over the caller's data that was written
    there, so that an in-place write is visible as a changed expression.
    An expression names the operation and the layer's settings, not the
    layer's learned parameters or statistics: two layers with equal settings
    give equal expressions, which says nothing about the numbers they
    compute. *)

Module torch.

Inductive data : Type :=
| Samples (id : nat)                                    (* supplied by the caller *)
| Uninitialised
| Conv (cin cout kernel_size stride padding dilation : Z) (x : data)
| Norm (num_features : Z) (training : bool) (x : data)
| Leaky (negative_slope : Q) (step : Z) (x : data)      (* on every [step]-th sample *)
| Tanh (x : data)
| Interpolate (x : data)
| Cat (x y : data)
| Strided (step : Z) (x : data).                        (* every [step]-th sample *)

Record tensor : Type := {
  storage : nat;
  step : Z;
  shape : Z * Z * Z
}.

Abbreviation store := (list data).

(** Computations over the store that may raise; a raised exception leaves
    the store as it was at that point. *)
Definition M (A : Type) : Type := store → store * result A.

Definition ret {A} (a : A) : M A := λ σ, (σ, OK a).

Definition raise {A} (e : exception) : M A := λ σ, (σ, Raise e).

Definition bind {A B} (m : M A) (k : A → M B) : M B :=
  λ σ, match m σ with
       | (σ', OK a) => k a σ'
       | (σ', Raise e) => (σ', Raise e)
       end.

Definition lift {A} (r : result A) : M A := λ σ, (σ, r).

(** A [for] loop threading the variables [s] it assigns. *)
Fixpoint for_ {S} (iter : list Z) (body : Z → S → M S) (s : S) : M S :=
  match iter with
  | [] => ret s
  | i :: iter => bind (body i s) (for_ iter body)
  end.

(** The contents seen through a handle. *)
Definition read (σ : store) (x : tensor) : data :=
  let d := default Uninitialised (σ !! storage x) in
  if decide (step x = 1) then d else Strided (step x) d.

(** A new contiguous tensor in a fresh storage. *)
Definition alloc (d : data) (sh : Z * Z * Z) : M tensor :=
  λ σ, (σ ++ [d], OK {| storage := length σ; step := 1; shape := sh |}).

(** [nn.Conv1d(...)(x)]: [L_out = (L + 2 p - d (k - 1) - 1) / s + 1]. *)
Definition conv1d (cin cout kernel_size stride padding dilation : Z) (x : tensor)
  : M tensor :=
  let '(n, c, l) := shape x in
  if bool_decide (c = cin ∧ 0 < kernel_size ∧ 0 < stride ∧ 0 ≤ padding ∧ 0 < dilation
                  ∧ dilation * (kernel_size - 1) + 1 ≤ l + 2 * padding)
  then λ σ, alloc (Conv cin cout kernel_size stride padding dilation (read σ x))
              (n, cout, (l + 2 * padding - dilation * (kernel_size - 1) - 1) / stride + 1) σ
  else raise RuntimeError.

(** [nn.BatchNorm1d(num_features)(x)].  In training mode the batch must
    hold more than one value per channel ([N * L = 1] raises [ValueError],
    before the channels are compared); the statistics used are then those of
    the batch, otherwise the running ones.  The running statistics are
    buffers of the layer, which no tensor of the store aliases. *)
Definition batch_norm (training : bool) (num_features : Z) (x : tensor) : M tensor :=
  let '(n, c, l) := shape x in
  if training && bool_decide (n * l = 1) then raise ValueError
  else if bool_decide (c = num_features)
  then λ σ, alloc (Norm num_features training (read σ x)) (n, c, l) σ
  else raise RuntimeError.

(** [nn.LeakyReLU(negative_slope, inplace)(x)]: in place, the storage of
    [x] is overwritten and [x] itself is returned. *)
Definition leaky_relu (negative_slope : Q) (inplace : bool) (x : tensor) : M tensor :=
  if inplace
  then λ σ, (alter (Leaky negative_slope (step x)) (storage x) σ, OK x)
  else λ σ, alloc (Leaky negative_slope 1 (read σ x)) (shape x) σ.

(** [nn.Tanh()(x)] *)
Definition tanh (x : tensor) : M tensor :=
  λ σ, alloc (Tanh (read σ x)) (shape x) σ.

(** [F.interpolate(x, scale_factor=2, mode="linear", align_corners=True)] *)
Definition interpolate (x : tensor) : M tensor :=
  let '(n, c, l) := shape x in
  if bool_decide (0 < l)
  then λ σ, alloc (Interpolate (read σ x)) (n, c, 2 * l) σ
  else raise RuntimeError.

(** [torch.cat([x, y], dim=1)] *)
Definition cat (x y : tensor) : M tensor :=
  let '(n, c, l) := shape x in
  let '(n', c', l') := shape y in
  if bool_decide (n = n' ∧ l = l')
  then λ σ, alloc (Cat (read σ x) (read σ y)) (n, c + c', l) σ
  else raise RuntimeError.

(** [x[:, :, ::2]]: a view on the storage of [x] holding the samples at
    positions [0, 2, 4, ...]. *)
Definition every_second (x : tensor) : tensor :=
  let '(n, c, l) := shape x in
  {| storage := storage x; step := 2 * step x; shape := (n, c, (l + 1) / 2) |}.

End torch.

Import torch.

Notation "'let*' x ':=' m 'in' k" := (torch.bind m (λ x, k))
  (at level 10, x pattern, m at level 100, k at level 200).

(** The same slice on a plain Python list. *)
Fixpoint slice_step2 {A} (l : list A) : list A :=
  match l with
  | [] => []
  | [x] => [x]
  | x :: _ :: l => x :: slice_step2 l
  end.

Module Sequential.

Definition forward_module (m : nn.module) (x : tensor) : M tensor :=
  match m with
  | nn.Conv1d cin cout k s p d => torch.conv1d cin cout k s p d x
  | nn.BatchNorm1d c training => torch.batch_norm training c x
  | nn.LeakyReLU a inplace => torch.leaky_relu a inplace x
  | nn.Tanh => torch.tanh x
  end.

Fixpoint forward (self : nn.Sequential) (input : tensor) : M tensor :=
  match self with
  | [] => torch.ret input
  | m :: self => let* input := forward_module m input in forward self input
  end.

(** [nn.Module.train(mode)]: sets the flag of every layer. *)
Definition train (mode : bool) (self : nn.Sequential) : nn.Sequential :=
  nn.train mode <$> self.

End Sequential.

Module DownSamplingLayer.

Record t : Type := { main : nn.Sequential }.

Definition __init__ (channel_in channel_out dilation kernel_size stride padding : Z) : t :=
  {| main := [ nn.Conv1d channel_in channel_out kernel_size stride padding dilation;
               nn.BatchNorm1d channel_out true;
               nn.LeakyReLU (1 # 10) false ] |}.

Definition forward (self : t) (ipt : tensor) : M tensor :=
  Sequential.forward (main self) ipt.

Definition train (mode : bool) (self : t) : t :=
  {| main := Sequential.train mode (main self) |}.

End DownSamplingLayer.

Module UpSamplingLayer.

Record t : Type := { main : nn.Sequential }.

Definition __init__ (channel_in channel_out dilation kernel_size stride padding : Z) : t :=
  {| main := [ nn.Conv1d channel_in channel_out kernel_size stride padding dilation;
               nn.BatchNorm1d channel_out true;
               nn.LeakyReLU (1 # 10) true ] |}.

Definition forward (self : t) (ipt : tensor) : M tensor :=
  Sequential.forward (main self) ipt.

Definition train (mode : bool) (self : t) : t :=
  {| main := Sequential.train mode (main self) |}.

End UpSamplingLayer.

Module UNet.

Record t : Type := {
  n_layers : Z;
  channels_interval : Z;
  encoder : list DownSamplingLayer.t;
  middle : nn.Sequential;
  decoder : list UpSamplingLayer.t;
  out : nn.Sequential
}.

(** The channel plan (lines 53-54 and 87-90). *)
Definition encoder_in_channels_list (n_layers channels_interval : Z) : list Z :=
  [1] ++ ((λ i, i * channels_interval) <$> range 1 n_layers).

Definition encoder_out_channels_list (n_layers channels_interval : Z) : list Z :=
  (λ i, i * channels_interval) <$> range 1 (n_layers + 1).

Definition decoder_in_channels_list (n_layers channels_interval : Z) : list Z :=
  reverse (((λ i, (2 * i + 1) * channels_interval) <$> range 1 n_layers)
           ++ [2 * n_layers * channels_interval]).

Definition decoder_out_channels_list (n_layers channels_interval : Z) : list Z :=
  reverse (encoder_out_channels_list n_layers channels_interval).

(** Lines 60-63 and 95-99: the dilation looked up for the 0-based loop
    index [i].  With no dictionary the subscript [None["layers"]] raises. *)
Definition lookup_dilated_rate (dilation : option DilationConfig) (i : Z)
  : result (option Z) :=
  let dilated_rate := None in
  match dilation with
  | None => Raise TypeError
  | Some d =>
      if contains (i + 1) (layers d) then
        let! index_in_dilated_rates := index (layers d) (i + 1) in
        let! dilated_rate := getitem (dilated_rates d) index_in_dilated_rates in
        OK (Some dilated_rate)
      else OK dilated_rate
  end.

(** [dilated_rate if dilated_rate else 1] *)
Definition rate_or_1 (dilated_rate : option Z) : Z :=
  if truthy dilated_rate then default 1 dilated_rate else 1.

Section Init.

(** [from utils.utils import calculate_same_padding]: called as
    [calculate_same_padding(l_in, kernel_size, stride, dilation)]. *)
Variable calculate_same_padding : Z → Z → Z → Z → Z.

Definition __init__
    (n_layers channels_interval kernel_size_in_encoder kernel_size_in_decoder : Z)
    (dilation_in_encoder dilation_in_decoder : option DilationConfig) : result t :=
  let encoder_in_channels_list := encoder_in_channels_list n_layers channels_interval in
  let encoder_out_channels_list := encoder_out_channels_list n_layers channels_interval in
  let! encoder :=
    for_append (λ i,
      let! dilated_rate := lookup_dilated_rate dilation_in_encoder i in
      let! channel_in := getitem encoder_in_channels_list i in
      let! channel_out := getitem encoder_out_channels_list i in
      let! l_in := getitem encoder_in_channels_list i in
      OK (DownSamplingLayer.__init__
            channel_in channel_out
            (rate_or_1 dilated_rate)
            kernel_size_in_encoder
            1
            (calculate_same_padding l_in kernel_size_in_encoder 1
               (rate_or_1 dilated_rate))))
      (range 0 n_layers) in
  let middle :=
    [ nn.Conv1d (n_layers * channels_interval) (n_layers * channels_interval) 15 1 7 1;
      nn.BatchNorm1d (n_layers * channels_interval) true;
      nn.LeakyReLU (1 # 10) true ] in
  let decoder_in_channels_list := decoder_in_channels_list n_layers channels_interval in
  let decoder_out_channels_list := decoder_out_channels_list n_layers channels_interval in
  let! decoder :=
    for_append (λ i,
      let! dilated_rate := lookup_dilated_rate dilation_in_decoder i in
      let! channel_in := getitem decoder_in_channels_list i in
      let! channel_out := getitem decoder_out_channels_list i in
      let! l_in := getitem encoder_in_channels_list i in
      OK (UpSamplingLayer.__init__
            channel_in channel_out
            (rate_or_1 dilated_rate)
            kernel_size_in_decoder
            1
            (calculate_same_padding l_in kernel_size_in_decoder 1
               (rate_or_1 dilated_rate))))
      (range 0 n_layers) in
  let out := [ nn.Conv1d (1 + channels_interval) 1 1 1 0 1; nn.Tanh ] in
  OK {| n_layers := n_layers;
        channels_interval := channels_interval;
        encoder := encoder;
        middle := middle;
        decoder := decoder;
        out := out |}.

End Init.

(** Lines 126-130: the first loop, returning [o] and the skip list [tmp]. *)
Definition encode (self : t) (ipt : tensor) : M (tensor * list tensor) :=
  let tmp := [] in
  let o := ipt in
  for_ (range 0 (n_layers self)) (λ i '(o, tmp),
    let* layer := lift (getitem (encoder self) i) in
    let* o := DownSamplingLayer.forward layer o in
    let tmp := tmp ++ [o] in
    let o := every_second o in
    ret (o, tmp)) (o, tmp).

(** Lines 135-140: the second loop. *)
Definition decode (self : t) (tmp : list tensor) (o : tensor) : M tensor :=
  for_ (range 0 (n_layers self)) (λ i o,
    let* o := interpolate o in
    let* skip := lift (getitem tmp (n_layers self - i - 1)) in
    let* o := cat o skip in
    let* layer := lift (getitem (decoder self) i) in
    UpSamplingLayer.forward layer o) o.

Definition forward (self : t) (ipt : tensor) : M tensor :=
  let* (o, tmp) := encode self ipt in
  let* o := Sequential.forward (middle self) o in
  let* o := decode self tmp o in
  let* o := cat o ipt in
  let* o := Sequential.forward (out self) o in
  ret o.

(** [nn.Module.train(mode)] and [nn.Module.eval()], inherited: they set the
    flag of every layer of the network. *)
Definition train (mode : bool) (self : t) : t :=
  {| n_layers := n_layers self;
     channels_interval := channels_interval self;
     encoder := DownSamplingLayer.train mode <$> encoder self;
     middle := Sequential.train mode (middle self);
     decoder := UpSamplingLayer.train mode <$> decoder self;
     out := Sequential.train mode (out self) |}.

Definition eval (self : t) : t := train false self.

End UNet.

(** Modelled from the spec: [utils.utils.calculate_same_padding] is missing
    from the sources.  Section 4.1 asks for the symmetric padding [p] that
    makes a convolution of effective receptive field
    [dilation * (kernel_size - 1) + 1] return [l_in] samples; solving
    [l_in = (l_in + 2 p - dilation * (kernel_size - 1) - 1) / stride + 1]
    for [p], rounding the half up. *)
Definition same_padding (l_in kernel_size stride dilation : Z) : Z :=
  ((l_in - 1) * stride - l_in + dilation * (kernel_size - 1) + 1 + 1) / 2.



(** ** Vocabulary of the statements *)

(** Input channels of the encoder stage with 0-based index [i]. *)
Definition stage_in (channels_interval i : Z) : Z :=
  if decide (i = 0) then 1 else i * channels_interval.

(** Input channels of the decoder stage with 0-based index [i], counted
    from the bottleneck. *)
Definition stage_cat (n_layers channels_interval i : Z) : Z :=
  if decide (i = 0) then 2 * n_layers * channels_interval
  else (2 * (n_layers - i) + 1) * channels_interval.

(** The dilation the loops of the constructor give to the 1-based layer
    [i]: the rate stored at the first position of [i] in [layers], and [1]
    when [i] is not listed (or the stored rate is [0]). *)
Definition stage_dilation (d : DilationConfig) (i : Z) : Z :=
  match list_find (λ y, y = i) (layers d) with
  | Some (j, _) => UNet.rate_or_1 (dilated_rates d !! j)
  | None => 1
  end.

(** Every layer of [1 .. n_layers] that is listed has a rate at the
    position where it is first listed. *)
Definition rates_cover (n_layers : Z) (d : DilationConfig) : Prop :=
  ∀ (i : Z) (j : nat),
    1 ≤ i ≤ n_layers → list_find (λ y, y = i) (layers d) = Some (j, i) →
    (j < length (dilated_rates d))%nat.

(** The network the constructor builds when both dictionaries are given
    and all their lookups are in range. *)
Definition encoder_stage (pad : Z → Z → Z → Z → Z) (c k : Z) (d : DilationConfig) (i : Z)
  : DownSamplingLayer.t :=
  DownSamplingLayer.__init__ (stage_in c i) ((i + 1) * c) (stage_dilation d (i + 1)) k 1
    (pad (stage_in c i) k 1 (stage_dilation d (i + 1))).

Definition decoder_stage (pad : Z → Z → Z → Z → Z) (n c k : Z) (d : DilationConfig) (i : Z)
  : UpSamplingLayer.t :=
  UpSamplingLayer.__init__ (stage_cat n c i) ((n - i) * c) (stage_dilation d (i + 1)) k 1
    (pad (stage_in c i) k 1 (stage_dilation d (i + 1))).

Definition assembled (pad : Z → Z → Z → Z → Z) (n c ke kd : Z) (de dd : DilationConfig)
  : UNet.t :=
  {| UNet.n_layers := n;
     UNet.channels_interval := c;
     UNet.encoder := encoder_stage pad c ke de <$> seqZ 0 n;
     UNet.middle := [ nn.Conv1d (n * c) (n * c) 15 1 7 1; nn.BatchNorm1d (n * c) true;
                      nn.LeakyReLU (1 # 10) true ];
     UNet.decoder := decoder_stage pad n c kd dd <$> seqZ 0 n;
     UNet.out := [ nn.Conv1d (1 + c) 1 1 1 0 1; nn.Tanh ] |}.

(** [ceil(L / 2^i)] *)
Definition halved (i L : Z) : Z := (L + 2 ^ i - 1) / 2 ^ i.

(** The lengths [L, ceil(L/2), ..., ceil(L/2^(m-1))] are all even. *)
Fixpoint all_even (m : nat) (L : Z) : bool :=
  match m with
  | O => true
  | S m => Z.even (halved (Z.of_nat m) L) && all_even m L
  end.

(** The skip list after [i] encoder iterations on an input of shape
    [(b, 1, L)]: one tensor per stage, taken before the decimation. *)
Definition skips_upto (b c L : Z) (i : Z) (tmp : list tensor) : Prop :=
  length tmp = Z.to_nat i ∧
  ∀ j, 0 ≤ j < i →
    ∃ t, tmp !! Z.to_nat j = Some t ∧ shape t = (b, (j + 1) * c, halved j L).

(** The variables [o] and [tmp] before encoder iteration [i]. *)
Definition encode_inv (b c L : Z) (i : Z) (s : tensor * list tensor) : Prop :=
  0 ≤ i ∧ shape s.1 = (b, stage_in c i, halved i L) ∧ skips_upto b c L i s.2.

(** Channels of [o] when [m] decoder stages remain. *)
Definition remaining_channels (n c : Z) (m : Z) : Z :=
  if decide (m = n) then n * c else (m + 1) * c.

(** The tensor lives in a storage allocated after the first [k]. *)
Definition fresh (k : nat) (y : tensor) : Prop := (k ≤ storage y)%nat.

(** Dilation and padding of the convolution a block starts with. *)
Definition conv_dilation (s : nn.Sequential) : option Z :=
  match s with
  | nn.Conv1d _ _ _ _ _ dilation :: _ => Some dilation
  | _ => None
  end.

Definition conv_padding (s : nn.Sequential) : option Z :=
  match s with
  | nn.Conv1d _ _ _ _ padding _ :: _ => Some padding
  | _ => None
  end.

(** A dictionary that dilates no layer, and the tensor handle of a
    caller whose store holds one storage. *)
Definition no_dilation : DilationConfig := {| layers := []; dilated_rates := [] |}.

Definition input (b L : Z) : tensor := {| storage := 0; step := 1; shape := (b, 1, L) |}.

(** A stand-in for the padding helper that returns its first argument, to
    observe the [l_in] it is called with. *)
Definition l_in_probe (l_in kernel_size stride dilation : Z) : Z := l_in.

(** [m] returns normally, from every store, with a value satisfying [P]. *)
Definition yields {A} (m : M A) (P : A → Prop) : Prop :=
  ∀ σ, ∃ σ' a, m σ = (σ', OK a) ∧ P a.

(** [m] raises [e], from every store. *)
Definition fails {A} (m : M A) (e : exception) : Prop :=
  ∀ σ, ∃ σ', m σ = (σ', Raise e).

(** Started from a store with at least [k] storages, [m] leaves the first
    [k] of them as they are, and what it returns satisfies [P]. *)
Definition keeps {A} (k : nat) (m : M A) (P : A → Prop) : Prop :=
  ∀ σ σ' r, (k ≤ length σ)%nat → m σ = (σ', r) →
    (k ≤ length σ')%nat
    ∧ (∀ l : nat, (l < k)%nat → σ' !! l = σ !! l)
    ∧ ∀ a, r = OK a → P a.

(** The layer writes its result to a storage of its own. *)
Definition allocates (m : nn.module) : bool :=
  match m with
  | nn.LeakyReLU _ inplace => negb inplace
  | _ => true
  end.

Definition starts_fresh (s : nn.Sequential) : Prop :=
  match s with
  | m :: _ => allocates m = true
  | [] => False
  end.

(** Whatever [m] does, it returns a value satisfying [P] or raises an
    exception satisfying [E]. *)
Definition outcome {A} (m : M A) (P : A → Prop) (E : exception → Prop) : Prop :=
  ∀ σ σ' r, m σ = (σ', r) →
    match r with
    | OK a => P a
    | Raise e => E e
    end.

(** The exception of a normalisation in training mode whose input holds a
    single value per channel. *)
Definition single_value (training : bool) (b l : Z) (e : exception) : Prop :=
  e = ValueError ∧ training = true ∧ b * l = 1.

(** The batch size of a tensor. *)
Definition batch (x : tensor) : Z := (shape x).1.1.

(** The exceptions of the primitives: the [RuntimeError] of a shape check,
    and the [ValueError] of a normalisation, in training mode on a batch of
    one only. *)
Definition shape_or_single (training : bool) (b : Z) (e : exception) : Prop :=
  e = RuntimeError ∨ (e = ValueError ∧ training = true ∧ b = 1).

(** * Properties *)

(** ** Python helpers *)

Section PyFacts.

Context {A : Type}.

Lemma getitem_lookup (l : list A) (i : Z) (x : A) :
  0 ≤ i → l !! Z.to_nat i = Some x → getitem l i = OK x.
Proof.
  intros Hi Hx. unfold getitem.
  destruct (decide (i < 0)) as [?|_]; [lia|].
  destruct (decide (0 ≤ i)) as [_|?]; [|lia].
  by rewrite Hx.
Qed.

Lemma getitem_fmap_seqZ (f : Z → A) (n i : Z) :
  0 ≤ i < n → getitem (f <$> seqZ 0 n) i = OK (f i).
Proof.
  intros Hi. apply getitem_lookup; [lia|].
  rewrite list_lookup_fmap, lookup_seqZ_lt by lia.
  simpl. f_equal. f_equal. lia.
Qed.

Lemma getitem_past_end (l : list A) (i : Z) :
  len l ≤ i → getitem l i = Raise IndexError.
Proof.
  unfold getitem, len. intros Hi.
  destruct (decide (i < 0)) as [?|_]; [lia|].
  destruct (decide (0 ≤ i)) as [_|?]; [|done].
  by rewrite lookup_ge_None_2 by lia.
Qed.

Lemma for_append_ok (body : Z → result A) (f : Z → A) (iter : list Z) :
  (∀ i, i ∈ iter → body i = OK (f i)) → for_append body iter = OK (f <$> iter).
Proof.
  induction iter as [|i iter IH]; intros Hbody; [done|].
  simpl. rewrite Hbody by left. simpl.
  rewrite IH; [done|]. intros j Hj. apply Hbody. by right.
Qed.

Lemma for_append_raise (body : Z → result A) (e : exception) (iter : list Z) (i : Z) :
  i ∈ iter → body i = Raise e → ∃ e', for_append body iter = Raise e'.
Proof.
  induction iter as [|j iter IH]; intros Hi Hbody; [by apply elem_of_nil in Hi|].
  apply elem_of_cons in Hi as [->|Hi].
  - exists e. simpl. by rewrite Hbody.
  - simpl. destruct (body j) as [x|e1]; [|by exists e1].
    simpl. destruct (IH Hi Hbody) as [e' ->]. by exists e'.
Qed.

Lemma for_append_inv (body : Z → result A) (iter : list Z) (xs : list A) :
  for_append body iter = OK xs → Forall2 (λ i x, body i = OK x) iter xs.
Proof.
  revert xs. induction iter as [|i iter IH]; intros xs; simpl.
  - intros [= <-]. constructor.
  - destruct (body i) as [x|] eqn:Hx; [|done]. simpl.
    destruct (for_append body iter) as [ys|]; [|done]. simpl.
    intros [= <-]. constructor; auto.
Qed.

End PyFacts.

Lemma contains_true (x : Z) (l : list Z) : contains x l = true ↔ x ∈ l.
Proof. unfold contains. apply bool_decide_eq_true. Qed.

Lemma index_first (l : list Z) (x : Z) (j : nat) :
  list_find (λ y, y = x) l = Some (j, x) → index l x = OK (Z.of_nat j).
Proof. unfold index. by intros ->. Qed.

Lemma list_find_eq_Some (l : list Z) (x : Z) :
  x ∈ l → ∃ j : nat, list_find (λ y, y = x) l = Some (j, x).
Proof.
  intros Hx. destruct (list_find_elem_of (λ y, y = x) l x Hx eq_refl) as [[j y] Hj].
  exists j. pose proof Hj as Hj'. apply list_find_Some in Hj' as (_ & -> & _). done.
Qed.

(** ** The channel plan *)

Section ChannelPlan.

Variables n c : Z.

Lemma encoder_in_lookup (i : Z) :
  0 ≤ i < n →
  UNet.encoder_in_channels_list n c !! Z.to_nat i = Some (stage_in c i).
Proof.
  intros Hi. unfold UNet.encoder_in_channels_list, stage_in, range.
  destruct (decide (i = 0)) as [->|Hne]; [done|].
  replace (Z.to_nat i) with (S (Z.to_nat (i - 1))) by lia. simpl.
  rewrite list_lookup_fmap, lookup_seqZ_lt by lia. simpl.
  f_equal. f_equal. lia.
Qed.

Lemma encoder_out_lookup (i : Z) :
  0 ≤ i < n →
  UNet.encoder_out_channels_list n c !! Z.to_nat i = Some ((i + 1) * c).
Proof.
  intros Hi. unfold UNet.encoder_out_channels_list, range.
  rewrite list_lookup_fmap, lookup_seqZ_lt by lia. simpl.
  f_equal. f_equal. lia.
Qed.

Lemma encoder_out_length :
  0 ≤ n → length (UNet.encoder_out_channels_list n c) = Z.to_nat n.
Proof.
  intros Hn. unfold UNet.encoder_out_channels_list, range.
  rewrite length_fmap, length_seqZ. lia.
Qed.

Lemma decoder_out_lookup (i : Z) :
  0 ≤ i < n →
  UNet.decoder_out_channels_list n c !! Z.to_nat i = Some ((n - i) * c).
Proof.
  intros Hi. unfold UNet.decoder_out_channels_list.
  rewrite reverse_lookup by (rewrite encoder_out_length; lia).
  rewrite encoder_out_length by lia.
  replace (Z.to_nat n - S (Z.to_nat i))%nat with (Z.to_nat (n - i - 1)) by lia.
  rewrite encoder_out_lookup by lia. f_equal. f_equal. lia.
Qed.

Lemma decoder_in_lookup (i : Z) :
  0 ≤ i < n →
  UNet.decoder_in_channels_list n c !! Z.to_nat i = Some (stage_cat n c i).
Proof.
  intros Hi. unfold UNet.decoder_in_channels_list, stage_cat, range.
  assert (Hlen : length (((λ i, (2 * i + 1) * c) <$> seqZ 1 (n - 1))
                         ++ [2 * n * c]) = Z.to_nat n).
  { rewrite length_app, length_fmap, length_seqZ. simpl. lia. }
  rewrite reverse_lookup by lia. rewrite Hlen.
  destruct (decide (i = 0)) as [->|Hne].
  - rewrite lookup_app_r by (rewrite length_fmap, length_seqZ; lia).
    rewrite length_fmap, length_seqZ.
    by replace (Z.to_nat n - S (Z.to_nat 0) - Z.to_nat (n - 1))%nat with 0%nat by lia.
  - rewrite lookup_app_l by (rewrite length_fmap, length_seqZ; lia).
    rewrite list_lookup_fmap, lookup_seqZ_lt by lia. simpl.
    f_equal. f_equal. lia.
Qed.

End ChannelPlan.

(** ** The constructor *)

Section Assembly.

Variable pad : Z → Z → Z → Z → Z.

Lemma rate_or_1_pos (v : option Z) :
  (∀ r, v = Some r → 0 < r) → 0 < UNet.rate_or_1 v.
Proof.
  intros Hv. unfold UNet.rate_or_1.
  destruct (truthy v); [|lia]. destruct v as [r|]; simpl; [|lia]. by apply Hv.
Qed.

Lemma rate_or_1_Some (r : Z) : r ≠ 0 → UNet.rate_or_1 (Some r) = r.
Proof.
  intros Hr. unfold UNet.rate_or_1. simpl. by rewrite bool_decide_eq_true_2.
Qed.

Lemma lookup_dilated_rate_ok (n : Z) (d : DilationConfig) (i : Z) :
  rates_cover n d → 0 ≤ i < n →
  ∃ v, UNet.lookup_dilated_rate (Some d) i = OK v
       ∧ UNet.rate_or_1 v = stage_dilation d (i + 1).
Proof.
  intros Hcov Hi. unfold UNet.lookup_dilated_rate, stage_dilation.
  destruct (contains (i + 1) (layers d)) eqn:Hin.
  - apply contains_true, list_find_eq_Some in Hin as [j Hj].
    rewrite (index_first _ _ _ Hj), Hj. simpl.
    destruct (lookup_lt_is_Some_2 (dilated_rates d) j) as [r Hr].
    { apply (Hcov (i + 1)); [lia|done]. }
    rewrite (getitem_lookup _ _ r); [|lia|by rewrite Nat2Z.id].
    simpl. exists (Some r). by rewrite Hr.
  - exists None. split; [done|].
    assert (Hnone : list_find (λ y, y = i + 1) (layers d) = None).
    { apply list_find_None, Forall_forall. intros y Hy ->.
      apply contains_true in Hy. congruence. }
    by rewrite Hnone.
Qed.

Lemma lookup_dilated_rate_raise (d : DilationConfig) (i : Z) (j : nat) :
  list_find (λ y, y = i + 1) (layers d) = Some (j, i + 1) →
  (length (dilated_rates d) ≤ j)%nat →
  UNet.lookup_dilated_rate (Some d) i = Raise IndexError.
Proof.
  intros Hj Hlen. unfold UNet.lookup_dilated_rate.
  assert (Hin : contains (i + 1) (layers d) = true).
  { apply contains_true. apply list_find_Some in Hj as (Hj & _).
    by eapply list_elem_of_lookup_2. }
  rewrite Hin, (index_first _ _ _ Hj). simpl.
  by rewrite getitem_past_end by (unfold len; lia).
Qed.

Lemma init_assembled (n c ke kd : Z) (de dd : DilationConfig) :
  rates_cover n de → rates_cover n dd →
  UNet.__init__ pad n c ke kd (Some de) (Some dd) = OK (assembled pad n c ke kd de dd).
Proof.
  intros Hde Hdd. unfold UNet.__init__, range. rewrite Z.sub_0_r.
  rewrite (for_append_ok _ (encoder_stage pad c ke de)); cycle 1.
  { intros i Hi%elem_of_seqZ.
    destruct (lookup_dilated_rate_ok n de i Hde) as (v & -> & Hv); [lia|]. simpl.
    rewrite (getitem_lookup _ _ _ (proj1 Hi) (encoder_in_lookup n c i ltac:(lia))). simpl.
    rewrite (getitem_lookup _ _ _ (proj1 Hi) (encoder_out_lookup n c i ltac:(lia))). simpl.
    by rewrite Hv. }
  cbn [Py.bind].
  rewrite (for_append_ok _ (decoder_stage pad n c kd dd)); cycle 1.
  { intros i Hi%elem_of_seqZ.
    destruct (lookup_dilated_rate_ok n dd i Hdd) as (v & -> & Hv); [lia|]. simpl.
    rewrite (getitem_lookup _ _ _ (proj1 Hi) (decoder_in_lookup n c i ltac:(lia))). simpl.
    rewrite (getitem_lookup _ _ _ (proj1 Hi) (decoder_out_lookup n c i ltac:(lia))). simpl.
    rewrite (getitem_lookup _ _ _ (proj1 Hi) (encoder_in_lookup n c i ltac:(lia))). simpl.
    by rewrite Hv. }
  done.
Qed.

End Assembly.

(** ** Halving lengths *)

Lemma halved_0 (L : Z) : halved 0 L = L.
Proof. unfold halved. rewrite Z.pow_0_r, Z.div_1_r. lia. Qed.

Lemma halved_succ (i L : Z) : 0 ≤ i → halved (i + 1) L = (halved i L + 1) / 2.
Proof.
  intros Hi. unfold halved.
  assert (Hp : 0 < 2 ^ i) by (apply Z.pow_pos_nonneg; lia).
  rewrite Z.pow_add_r, Z.pow_1_r by lia.
  rewrite <- Z.div_div by lia.
  replace (L + 2 ^ i * 2 - 1) with (L + 2 ^ i - 1 + 1 * 2 ^ i) by lia.
  by rewrite Z.div_add by lia.
Qed.

Lemma halved_pos (i L : Z) : 0 ≤ i → 1 ≤ L → 1 ≤ halved i L.
Proof.
  intros Hi HL. unfold halved.
  assert (Hp : 0 < 2 ^ i) by (apply Z.pow_pos_nonneg; lia).
  apply Z.div_le_lower_bound; lia.
Qed.

Lemma halved_divide (i L : Z) : 0 ≤ i → (2 ^ i | L) → L = halved i L * 2 ^ i.
Proof.
  intros Hi [q ->]. unfold halved.
  assert (Hp : 0 < 2 ^ i) by (apply Z.pow_pos_nonneg; lia).
  replace (q * 2 ^ i + 2 ^ i - 1) with (q * 2 ^ i + (2 ^ i - 1)) by lia.
  rewrite Z.div_add_l, Z.div_small by lia. lia.
Qed.

Lemma all_even_divide (m : nat) (L : Z) :
  all_even m L = true ↔ (2 ^ Z.of_nat m | L).
Proof.
  induction m as [|m IH]; simpl all_even.
  - split; [intros _; apply Z.divide_1_l|done].
  - rewrite andb_true_iff, IH, Nat2Z.inj_succ, Z.pow_succ_r by lia. split.
    + intros [He Hd]. rewrite (halved_divide _ _ (Nat2Z.is_nonneg m) Hd).
      apply Z.even_spec in He as [h ->]. exists h. lia.
    + intros [q Hq].
      assert (Hd : (2 ^ Z.of_nat m | L)) by (exists (q * 2); lia).
      split; [|done].
      pose proof (halved_divide _ _ (Nat2Z.is_nonneg m) Hd) as Hh.
      assert (Hp : 0 < 2 ^ Z.of_nat m) by (apply Z.pow_pos_nonneg; lia).
      assert (halved (Z.of_nat m) L = 2 * q) as -> by nia.
      by rewrite Z.even_mul.
Qed.

Lemma slice_step2_length {A} (l : list A) :
  len (slice_step2 l) = (len l + 1) / 2.
Proof.
  unfold len.
  assert (H : ∀ (n : nat) (l : list A), (length l ≤ n)%nat →
              Z.of_nat (length (slice_step2 l)) = (Z.of_nat (length l) + 1) / 2).
  { clear l. induction n as [|n IH]; intros [|x [|y l]] Hl; simpl in *; try done; try lia.
    rewrite Nat2Z.inj_succ, IH by lia.
    replace (Z.of_nat (S (S (length l))) + 1) with (Z.of_nat (length l) + 1 + 1 * 2) by lia.
    rewrite Z.div_add by lia. lia. }
  by apply (H (length l)).
Qed.

(** ** Reasoning about computations over the store *)

Section Rules.

Context {A B : Type}.

Lemma yields_ret (a : A) (P : A → Prop) : P a → yields (ret a) P.
Proof. intros Ha σ. by exists σ, a. Qed.

Lemma yields_lift (r : result A) (a : A) (P : A → Prop) :
  r = OK a → P a → yields (lift r) P.
Proof. intros -> Ha σ. by exists σ, a. Qed.

Lemma yields_bind (m : M A) (k : A → M B) (P : A → Prop) (Q : B → Prop) :
  yields m P → (∀ a, P a → yields (k a) Q) → yields (let* a := m in k a) Q.
Proof.
  intros Hm Hk σ. destruct (Hm σ) as (σ1 & a & Hrun & Ha).
  destruct (Hk a Ha σ1) as (σ2 & b & Hrun' & Hb).
  exists σ2, b. unfold torch.bind. by rewrite Hrun.
Qed.

Lemma yields_impl (m : M A) (P Q : A → Prop) :
  yields m P → (∀ a, P a → Q a) → yields m Q.
Proof.
  intros Hm HPQ σ. destruct (Hm σ) as (σ1 & a & Hrun & Ha). exists σ1, a. auto.
Qed.

Lemma fails_bind_now (m : M A) (k : A → M B) (e : exception) :
  fails m e → fails (let* a := m in k a) e.
Proof.
  intros Hm σ. destruct (Hm σ) as (σ1 & Hrun).
  exists σ1. unfold torch.bind. by rewrite Hrun.
Qed.

Lemma fails_bind_later (m : M A) (k : A → M B) (P : A → Prop) (e : exception) :
  yields m P → (∀ a, P a → fails (k a) e) → fails (let* a := m in k a) e.
Proof.
  intros Hm Hk σ. destruct (Hm σ) as (σ1 & a & Hrun & Ha).
  destruct (Hk a Ha σ1) as (σ2 & Hrun').
  exists σ2. unfold torch.bind. by rewrite Hrun.
Qed.

End Rules.

(** A [for] loop over [k, k+1, ..., k+m-1] establishes its invariant at
    [k + m]. *)
Lemma for_yields {St} (body : Z → St → M St) (Inv : Z → St → Prop) (m : nat) :
  ∀ (k : Z) (s : St),
    Inv k s →
    (∀ i s, k ≤ i < k + Z.of_nat m → Inv i s → yields (body i s) (Inv (i + 1))) →
    yields (for_ (seqZ k (Z.of_nat m)) body s) (Inv (k + Z.of_nat m)).
Proof.
  induction m as [|m IH]; intros k s Hs Hbody.
  - simpl. rewrite Z.add_0_r. by apply yields_ret.
  - rewrite seqZ_cons by lia. simpl for_.
    replace (Z.pred (Z.of_nat (S m))) with (Z.of_nat m) by lia.
    apply yields_bind with (P := Inv (k + 1)); [apply Hbody; [lia|done]|].
    intros s' Hs'. replace (k + Z.of_nat (S m)) with (Z.succ k + Z.of_nat m) by lia.
    apply IH; [by replace (Z.succ k) with (k + 1) by lia|].
    intros i s'' Hi. apply Hbody. lia.
Qed.

(** ** Outcomes *)

Section Outcomes.

Context {A B : Type}.

Lemma yields_outcome (m : M A) (P : A → Prop) (E : exception → Prop) :
  yields m P → outcome m P E.
Proof.
  intros Hm σ σ' r Hrun. destruct (Hm σ) as (σ1 & a & Hrun' & Ha).
  rewrite Hrun' in Hrun. by injection Hrun as <- <-.
Qed.

Lemma fails_outcome (m : M A) (e : exception) (P : A → Prop) (E : exception → Prop) :
  fails m e → E e → outcome m P E.
Proof.
  intros Hm He σ σ' r Hrun. destruct (Hm σ) as (σ1 & Hrun').
  rewrite Hrun' in Hrun. by injection Hrun as <- <-.
Qed.

Lemma outcome_yields (m : M A) (P : A → Prop) (E : exception → Prop) :
  outcome m P E → (∀ e, ¬ E e) → yields m P.
Proof.
  intros Hm HE σ. destruct (m σ) as [σ' [a|e]] eqn:Hrun.
  - exists σ', a. split; [done|]. exact (Hm _ _ _ Hrun).
  - destruct (HE e). exact (Hm _ _ _ Hrun).
Qed.

Lemma outcome_fails (m : M A) (e : exception) :
  outcome m (λ _, False) (λ e', e' = e) → fails m e.
Proof.
  intros Hm σ. destruct (m σ) as [σ' [a|e']] eqn:Hrun.
  - destruct (Hm _ _ _ Hrun).
  - exists σ'. by rewrite (Hm _ _ _ Hrun).
Qed.

Lemma outcome_ret (a : A) (P : A → Prop) (E : exception → Prop) : P a → outcome (ret a) P E.
Proof. by intros Ha σ σ' r [= <- <-]. Qed.

Lemma outcome_lift (a : A) (P : A → Prop) (E : exception → Prop) :
  P a → outcome (lift (OK a)) P E.
Proof. by intros Ha σ σ' r [= <- <-]. Qed.

Lemma outcome_bind (m : M A) (f : A → M B) (P : A → Prop) (Q : B → Prop)
    (E : exception → Prop) :
  outcome m P E → (∀ a, P a → outcome (f a) Q E) → outcome (let* a := m in f a) Q E.
Proof.
  intros Hm Hf σ σ' r. unfold torch.bind.
  destruct (m σ) as [σ1 [a|e]] eqn:Hrun.
  - intros Hrun'. exact (Hf a (Hm _ _ _ Hrun) _ _ _ Hrun').
  - intros [= <- <-]. exact (Hm _ _ _ Hrun).
Qed.

Lemma outcome_impl (m : M A) (P Q : A → Prop) (E E' : exception → Prop) :
  outcome m P E → (∀ a, P a → Q a) → (∀ e, E e → E' e) → outcome m Q E'.
Proof.
  intros Hm HPQ HE σ σ' r Hrun. specialize (Hm _ _ _ Hrun). destruct r; auto.
Qed.

End Outcomes.

Lemma outcome_for {St} (body : Z → St → M St) (Inv : Z → St → Prop)
    (E : exception → Prop) (m : nat) :
  ∀ (k : Z) (s : St),
    Inv k s →
    (∀ i s, k ≤ i < k + Z.of_nat m → Inv i s → outcome (body i s) (Inv (i + 1)) E) →
    outcome (for_ (seqZ k (Z.of_nat m)) body s) (Inv (k + Z.of_nat m)) E.
Proof.
  induction m as [|m IH]; intros k s Hs Hbody.
  - simpl. rewrite Z.add_0_r. by apply outcome_ret.
  - rewrite seqZ_cons by lia. simpl for_.
    replace (Z.pred (Z.of_nat (S m))) with (Z.of_nat m) by lia.
    apply outcome_bind with (P := Inv (k + 1)); [apply Hbody; [lia|done]|].
    intros s' Hs'. replace (k + Z.of_nat (S m)) with (Z.succ k + Z.of_nat m) by lia.
    apply IH; [by replace (Z.succ k) with (k + 1) by lia|].
    intros i s'' Hi. apply Hbody. lia.
Qed.

(** ** Shapes of the primitives *)

Section Shapes.

Variables (b c l : Z) (x : tensor).
Hypothesis Hx : shape x = (b, c, l).

Lemma conv1d_same (cout k p d : Z) :
  0 < k → 0 < d → 2 * p = d * (k - 1) → 1 ≤ l →
  yields (conv1d c cout k 1 p d x) (λ y, shape y = (b, cout, l)).
Proof using Hx.
  intros Hk Hd Hp Hl σ. unfold conv1d. rewrite Hx.
  rewrite bool_decide_eq_true_2 by nia.
  eexists _, _. split; [done|]. simpl. rewrite Z.div_1_r. do 2 f_equal. lia.
Qed.

(** A normalisation returns a tensor of the shape of its input, unless it
    is in training mode and the input holds one value per channel. *)
Lemma batch_norm_outcome (training : bool) :
  outcome (batch_norm training c x) (λ y, shape y = (b, c, l)) (single_value training b l).
Proof using Hx.
  intros σ σ' r. unfold batch_norm. rewrite Hx.
  destruct training; simpl.
  - case_bool_decide as Hone.
    + by intros [= <- <-].
    + rewrite bool_decide_eq_true_2 by done. by intros [= <- <-].
  - rewrite bool_decide_eq_true_2 by done. by intros [= <- <-].
Qed.

Lemma batch_norm_single : b * l = 1 → fails (batch_norm true c x) ValueError.
Proof using Hx.
  intros Hone σ. unfold batch_norm. rewrite Hx. simpl.
  rewrite bool_decide_eq_true_2 by done. by eexists.
Qed.

Lemma leaky_relu_shape (a : Q) (inplace : bool) :
  yields (leaky_relu a inplace x) (λ y, shape y = (b, c, l)).
Proof using Hx.
  intros σ. unfold leaky_relu. destruct inplace; by eexists _, _.
Qed.

Lemma tanh_shape : yields (torch.tanh x) (λ y, shape y = (b, c, l)).
Proof using Hx. intros σ. by eexists _, _. Qed.

Lemma interpolate_shape :
  0 < l → yields (interpolate x) (λ y, shape y = (b, c, 2 * l)).
Proof using Hx.
  intros Hl σ. unfold interpolate. rewrite Hx, bool_decide_eq_true_2 by done.
  by eexists _, _.
Qed.

Lemma cat_shape (y : tensor) (c' : Z) :
  shape y = (b, c', l) → yields (cat x y) (λ z, shape z = (b, c + c', l)).
Proof using Hx.
  intros Hy σ. unfold cat. rewrite Hx, Hy, bool_decide_eq_true_2 by done.
  by eexists _, _.
Qed.

Lemma cat_mismatch (y : tensor) (b' c' l' : Z) :
  shape y = (b', c', l') → l ≠ l' → fails (cat x y) RuntimeError.
Proof using Hx.
  intros Hy Hne σ. unfold cat. rewrite Hx, Hy, bool_decide_eq_false_2 by tauto.
  by eexists.
Qed.

Lemma every_second_shape : shape (every_second x) = (b, c, (l + 1) / 2).
Proof using Hx. unfold every_second. by rewrite Hx. Qed.

End Shapes.

(** A block whose convolution keeps the length returns a tensor of that
    length with the block's output channels, or raises in its
    normalisation. *)
Lemma block_outcome (training : bool) (inplace : bool) (b c l : Z) (x : tensor)
    (cout d k p : Z) :
  shape x = (b, c, l) → 0 < k → 0 < d → 2 * p = d * (k - 1) → 1 ≤ l →
  outcome
    (Sequential.forward
       (Sequential.train training
          [ nn.Conv1d c cout k 1 p d; nn.BatchNorm1d cout true;
            nn.LeakyReLU (1 # 10) inplace ]) x)
    (λ y, shape y = (b, cout, l)) (single_value training b l).
Proof.
  intros Hx Hk Hd Hp Hl.
  cbn [Sequential.train fmap list_fmap nn.train Sequential.forward
       Sequential.forward_module].
  eapply outcome_bind; [apply yields_outcome; by eapply conv1d_same|].
  intros y1 Hy1. cbv beta in *.
  eapply outcome_bind; [by eapply batch_norm_outcome|]. intros y2 Hy2. cbv beta in *.
  eapply outcome_bind; [apply yields_outcome; by eapply leaky_relu_shape|].
  intros y3 Hy3. cbv beta in *. by apply outcome_ret.
Qed.

Lemma block_single (inplace : bool) (b c l : Z) (x : tensor) (cout d k p : Z) :
  shape x = (b, c, l) → 0 < k → 0 < d → 2 * p = d * (k - 1) → 1 ≤ l → b * l = 1 →
  fails
    (Sequential.forward
       (Sequential.train true
          [ nn.Conv1d c cout k 1 p d; nn.BatchNorm1d cout true;
            nn.LeakyReLU (1 # 10) inplace ]) x)
    ValueError.
Proof.
  intros Hx Hk Hd Hp Hl Hone.
  cbn [Sequential.train fmap list_fmap nn.train Sequential.forward
       Sequential.forward_module].
  eapply fails_bind_later; [by eapply conv1d_same|].
  intros y1 Hy1. cbv beta in *.
  apply fails_bind_now. by eapply batch_norm_single.
Qed.

Lemma down_forward_same (training : bool) (b c l : Z) (x : tensor) (cout d k p : Z) :
  shape x = (b, c, l) → 0 < k → 0 < d → 2 * p = d * (k - 1) → 1 ≤ l →
  ¬ (training = true ∧ b * l = 1) →
  yields (DownSamplingLayer.forward
            (DownSamplingLayer.train training (DownSamplingLayer.__init__ c cout d k 1 p)) x)
    (λ y, shape y = (b, cout, l)).
Proof.
  intros Hx Hk Hd Hp Hl Hbn. eapply outcome_yields.
  - by apply (block_outcome training false b c l x cout d k p).
  - intros e (_ & ? & ?). by apply Hbn.
Qed.

Lemma up_forward_same (training : bool) (b c l : Z) (x : tensor) (cout d k p : Z) :
  shape x = (b, c, l) → 0 < k → 0 < d → 2 * p = d * (k - 1) → 1 ≤ l →
  ¬ (training = true ∧ b * l = 1) →
  yields (UpSamplingLayer.forward
            (UpSamplingLayer.train training (UpSamplingLayer.__init__ c cout d k 1 p)) x)
    (λ y, shape y = (b, cout, l)).
Proof.
  intros Hx Hk Hd Hp Hl Hbn. eapply outcome_yields.
  - by apply (block_outcome training true b c l x cout d k p).
  - intros e (_ & ? & ?). by apply Hbn.
Qed.

Lemma even_half (h : Z) : Z.even h = true → 2 * ((h + 1) / 2) = h.
Proof.
  intros [q ->]%Z.even_spec.
  replace (2 * q + 1) with (1 + q * 2) by lia.
  rewrite Z.div_add by lia. change (1 / 2) with 0. lia.
Qed.

Lemma odd_half (h : Z) : Z.even h = false → 2 * ((h + 1) / 2) ≠ h.
Proof.
  intros Hodd Heq. rewrite <- Heq, Z.even_mul in Hodd. done.
Qed.

Lemma stage_dilation_pos (d : DilationConfig) (i : Z) :
  Forall (λ r, 0 < r) (dilated_rates d) → 0 < stage_dilation d i.
Proof.
  intros Hpos. unfold stage_dilation.
  destruct (list_find _ _) as [[j y]|]; [|lia].
  apply rate_or_1_pos. intros r Hr. by eapply (Forall_lookup_1 _ _ _ _ Hpos).
Qed.

Lemma getitem_fmap_fmap_seqZ {A B} (g : A → B) (f : Z → A) (n i : Z) :
  0 ≤ i < n → getitem (g <$> (f <$> seqZ 0 n)) i = OK (g (f i)).
Proof.
  intros Hi. rewrite <- list_fmap_compose. by apply (getitem_fmap_seqZ (g ∘ f)).
Qed.

(** Once a length has been halved down to one sample it stays there. *)
Lemma halved_one (j j' L : Z) : 0 ≤ j ≤ j' → halved j L = 1 → halved j' L = 1.
Proof.
  intros Hj Hone.
  assert (H : ∀ m : nat, halved (j + Z.of_nat m) L = 1).
  { induction m as [|m IH]; [by rewrite Z.add_0_r|].
    replace (j + Z.of_nat (S m)) with (j + Z.of_nat m + 1) by lia.
    by rewrite halved_succ, IH by lia. }
  specialize (H (Z.to_nat (j' - j))). by replace (j + Z.of_nat (Z.to_nat (j' - j))) with j' in H by lia.
Qed.

Lemma single_value_deeper (b j n L : Z) :
  1 ≤ L → 0 ≤ j ≤ n → b * halved j L = 1 → b * halved n L = 1.
Proof.
  intros HL Hj Hone. pose proof (halved_pos j L ltac:(lia) HL) as Hpos.
  destruct (Z.eq_mul_1_nonneg' b (halved j L) ltac:(lia) Hone) as [-> Hl].
  by rewrite (halved_one j n L Hj Hl).
Qed.

(** ** The forward pass of an assembled network *)

Section Forward.

Variable pad : Z → Z → Z → Z → Z.
Variables (n c ke kd : Z) (de dd : DilationConfig).
Variables (b L : Z).
Variable training : bool.

Hypothesis Hn : 1 ≤ n.
Hypothesis Hke : 0 < ke.
Hypothesis Hkd : 0 < kd.
Hypothesis Hpad_e : ∀ l d, 0 < d → 2 * pad l ke 1 d = d * (ke - 1).
Hypothesis Hpad_d : ∀ l d, 0 < d → 2 * pad l kd 1 d = d * (kd - 1).
Hypothesis Hde : Forall (λ r, 0 < r) (dilated_rates de).
Hypothesis Hdd : Forall (λ r, 0 < r) (dilated_rates dd).
Hypothesis HL : 1 ≤ L.

Let net : UNet.t := UNet.train training (assembled pad n c ke kd de dd).

(** The encoder loop returns the skip list, unless a normalisation in
    training mode meets a single value per channel. *)
Lemma encode_run (ipt : tensor) :
  shape ipt = (b, 1, L) →
  outcome (UNet.encode net ipt)
    (λ s, shape s.1 = (b, n * c, halved n L) ∧ skips_upto b c L n s.2)
    (λ e, ∃ j, 0 ≤ j < n ∧ single_value training b (halved j L) e).
Proof using Hn Hke Hpad_e Hde HL.
  intros Hipt. unfold UNet.encode, range, net.
  cbn [UNet.n_layers UNet.encoder UNet.train assembled].
  replace (n - 0) with (Z.of_nat (Z.to_nat n)) by lia.
  eapply outcome_impl; [|  |intros e He; exact He].
  - apply (outcome_for _ (encode_inv b c L)).
    + unfold encode_inv, skips_upto. simpl. split_and!; [lia|by rewrite halved_0|done|lia].
    + intros i [o tmp] Hi (_ & Ho & Hlen & Htmp). simpl in Ho, Hlen, Htmp.
      rewrite getitem_fmap_fmap_seqZ by lia.
      eapply outcome_bind; [eapply (outcome_lift _ (λ y, y = _)); reflexivity|].
      intros layer ->. cbv beta.
      eapply outcome_bind.
      { unfold DownSamplingLayer.forward, encoder_stage, DownSamplingLayer.train,
          DownSamplingLayer.__init__. cbn [DownSamplingLayer.main].
        eapply outcome_impl.
        - eapply (block_outcome training false b _ (halved i L) o);
            [exact Ho|done| |apply Hpad_e|].
          + by apply stage_dilation_pos.
          + by apply stage_dilation_pos.
          + apply halved_pos; lia.
        - intros y Hy. exact Hy.
        - intros e He. exists i. split; [lia|done]. }
      intros o' Ho'. cbv beta in Ho'.
      apply outcome_ret. unfold encode_inv, skips_upto. simpl. split_and!.
      * lia.
      * rewrite (every_second_shape _ _ _ _ Ho'), halved_succ by lia.
        unfold stage_in. by rewrite decide_False by lia.
      * rewrite length_app, Hlen. simpl. lia.
      * intros j Hj. destruct (decide (j = i)) as [->|Hne].
        -- exists o'. split; [|done].
           rewrite lookup_app_r by lia.
           by replace (Z.to_nat i - length tmp)%nat with 0%nat by lia.
        -- destruct (Htmp j) as (t & Ht & Hsh); [lia|].
           exists t. split; [|done]. by rewrite lookup_app_l by lia.
  - intros [o tmp] (_ & Ho & Hskips). simpl in *.
    rewrite Z.add_0_l, Z2Nat.id in Ho, Hskips by lia. split; [|done].
    rewrite Ho. unfold stage_in. by rewrite decide_False by lia.
Qed.

(** The bottleneck. *)
Lemma middle_run (o : tensor) :
  shape o = (b, n * c, halved n L) →
  outcome (Sequential.forward (UNet.middle net) o)
    (λ y, shape y = (b, n * c, halved n L)) (single_value training b (halved n L)).
Proof using Hn HL.
  intros Ho. unfold net. cbn [UNet.middle UNet.train assembled].
  apply (block_outcome training true b (n * c) (halved n L) o (n * c) 1 15 7); [done|lia..|].
  apply halved_pos; lia.
Qed.

Lemma decode_run (tmp : list tensor) (m : nat) :
  (∀ j, 0 ≤ j ≤ n → ¬ (training = true ∧ b * halved j L = 1)) →
  skips_upto b c L n tmp → Z.of_nat m ≤ n →
  ∀ o, shape o = (b, remaining_channels n c (Z.of_nat m), halved (Z.of_nat m) L) →
    let loop :=
      for_ (seqZ (n - Z.of_nat m) (Z.of_nat m)) (λ i o,
        let* o := interpolate o in
        let* skip := lift (getitem tmp (UNet.n_layers net - i - 1)) in
        let* o := cat o skip in
        let* layer := lift (getitem (UNet.decoder net) i) in
        UpSamplingLayer.forward layer o) o in
    if all_even m L
    then yields loop (λ o', shape o' = (b, remaining_channels n c 0, L))
    else fails loop RuntimeError.
Proof using Hn Hkd Hpad_d Hdd HL.
  unfold net.
  intros Hbn [Hlen Htmp]. induction m as [|m IH]; intros Hm o Ho; cbv zeta.
  - simpl. apply yields_ret. by rewrite Ho, halved_0.
  - rewrite seqZ_cons by lia.
    replace (Z.pred (Z.of_nat (S m))) with (Z.of_nat m) by lia.
    replace (Z.succ (n - Z.of_nat (S m))) with (n - Z.of_nat m) by lia.
    cbn [for_ all_even UNet.n_layers UNet.decoder UNet.train assembled].
    destruct (Htmp (Z.of_nat m)) as (t & Ht & Hsh); [lia|].
    assert (Hget : getitem tmp (n - (n - Z.of_nat (S m)) - 1) = OK t).
    { apply getitem_lookup; [lia|].
      by replace (n - (n - Z.of_nat (S m)) - 1) with (Z.of_nat m) by lia. }
    assert (Hup : yields (interpolate o)
              (λ y, shape y = (b, remaining_channels n c (Z.of_nat (S m)),
                               2 * halved (Z.of_nat (S m)) L))).
    { eapply interpolate_shape; [done|].
      pose proof (halved_pos (Z.of_nat (S m)) L). lia. }
    assert (Hh : halved (Z.of_nat (S m)) L = (halved (Z.of_nat m) L + 1) / 2).
    { rewrite Nat2Z.inj_succ, <- Z.add_1_r. apply halved_succ. lia. }
    rewrite getitem_fmap_fmap_seqZ by lia. rewrite Hget.
    destruct (Z.even (halved (Z.of_nat m) L)) eqn:Heven; cbn [andb].
    + (* the skip tensor fits: run the stage, then the remaining ones *)
      assert (Hstage : yields
                (let* o := interpolate o in
                 let* skip := lift (OK t) in
                 let* o := cat o skip in
                 let* layer := lift (OK (UpSamplingLayer.train training
                                           (decoder_stage pad n c kd dd
                                              (n - Z.of_nat (S m))))) in
                 UpSamplingLayer.forward layer o)
                (λ y, shape y = (b, remaining_channels n c (Z.of_nat m),
                                 halved (Z.of_nat m) L))).
      { eapply yields_bind; [exact Hup|]. intros o1 Ho1. cbv beta in *.
        eapply yields_bind; [by apply (yields_lift _ t (λ y, y = t))|].
        intros ? ->. cbv beta.
        rewrite Hh, even_half in Ho1 by done.
        eapply yields_bind; [by eapply cat_shape|]. intros o2 Ho2. cbv beta in *.
        eapply yields_bind; [eapply (yields_lift _ _ (λ y, y = _)); reflexivity|].
        intros layer ->. cbv beta. unfold decoder_stage.
        assert (Hcat : remaining_channels n c (Z.of_nat (S m)) + (Z.of_nat m + 1) * c
                       = stage_cat n c (n - Z.of_nat (S m))).
        { unfold remaining_channels, stage_cat.
          destruct (decide (Z.of_nat (S m) = n)) as [He|Hne].
          - rewrite decide_True by lia. lia.
          - rewrite decide_False by lia. lia. }
        rewrite Hcat in Ho2.
        assert (Hout : (n - (n - Z.of_nat (S m))) * c = remaining_channels n c (Z.of_nat m)).
        { unfold remaining_channels. rewrite decide_False by lia. lia. }
        rewrite Hout.
        eapply up_forward_same; [exact Ho2|done| |apply Hpad_d| |].
        - by apply stage_dilation_pos.
        - by apply stage_dilation_pos.
        - apply halved_pos; lia.
        - apply Hbn. lia. }
      specialize (IH ltac:(lia)). cbn zeta in IH.
      cbn [UNet.n_layers UNet.decoder UNet.train assembled] in IH.
      destruct (all_even m L).
      * eapply yields_bind; [exact Hstage|]. intros o' Ho'. by apply IH.
      * eapply fails_bind_later; [exact Hstage|]. intros o' Ho'. by apply IH.
    + (* an odd length on the way down: the concatenation raises *)
      apply fails_bind_now.
      eapply fails_bind_later; [exact Hup|]. intros o1 Ho1. cbv beta in *.
      eapply fails_bind_later; [by apply (yields_lift _ t (λ y, y = t))|].
      intros ? ->. cbv beta.
      apply fails_bind_now. eapply cat_mismatch; [done..|].
      rewrite Hh. by apply odd_half.
Qed.

(** In training mode a batch of one whose length halves down to a single
    sample is rejected by a normalisation, in the encoder or at the
    bottleneck. *)
Lemma forward_run_single (ipt : tensor) :
  shape ipt = (b, 1, L) →
  training = true → b * halved n L = 1 →
  fails (UNet.forward net ipt) ValueError.
Proof using Hn Hke Hpad_e Hde HL.
  intros Hipt Htr Hone. apply outcome_fails. unfold UNet.forward.
  eapply outcome_bind.
  { eapply outcome_impl; [by apply encode_run| |].
    - intros s Hs. exact Hs.
    - intros e (j & _ & He & _). exact He. }
  intros [o tmp] [Ho _]. simpl in Ho.
  apply (fails_outcome _ ValueError); [|done].
  apply fails_bind_now. subst training. unfold net.
  cbn [UNet.middle UNet.train assembled].
  apply (block_single true b (n * c) (halved n L) o (n * c) 1 15 7); [done|lia..| |done].
  apply halved_pos; lia.
Qed.

Lemma forward_run (ipt : tensor) :
  shape ipt = (b, 1, L) →
  ¬ (training = true ∧ b * halved n L = 1) →
  if all_even (Z.to_nat n) L
  then yields (UNet.forward net ipt) (λ o, shape o = (b, 1, L))
  else fails (UNet.forward net ipt) RuntimeError.
Proof using Hn Hke Hkd Hpad_e Hpad_d Hde Hdd HL.
  intros Hipt Hok. unfold UNet.forward.
  assert (Hbn : ∀ j, 0 ≤ j ≤ n → ¬ (training = true ∧ b * halved j L = 1)).
  { intros j Hj [Htr Hone]. apply Hok. split; [done|].
    by apply (single_value_deeper b j n L). }
  assert (Henc : yields (UNet.encode net ipt)
            (λ s, shape s.1 = (b, n * c, halved n L) ∧ skips_upto b c L n s.2)).
  { eapply outcome_yields; [by apply encode_run|].
    intros e (j & Hj & _ & Htr & Hone). apply (Hbn j); [lia|done]. }
  assert (Hmid : ∀ o, shape o = (b, n * c, halved n L) →
            yields (Sequential.forward (UNet.middle net) o)
              (λ y, shape y = (b, remaining_channels n c (Z.of_nat (Z.to_nat n)),
                               halved (Z.of_nat (Z.to_nat n)) L))).
  { intros o Ho. rewrite Z2Nat.id by lia.
    unfold remaining_channels. rewrite decide_True by done.
    eapply outcome_yields; [by apply middle_run|].
    intros e (_ & Htr & Hone). apply (Hbn n); [lia|done]. }
  assert (Hdec : ∀ tmp o, skips_upto b c L n tmp →
            shape o = (b, remaining_channels n c (Z.of_nat (Z.to_nat n)),
                       halved (Z.of_nat (Z.to_nat n)) L) →
            if all_even (Z.to_nat n) L
            then yields (UNet.decode net tmp o) (λ o', shape o' = (b, remaining_channels n c 0, L))
            else fails (UNet.decode net tmp o) RuntimeError).
  { intros tmp o Htmp Ho.
    pose proof (decode_run tmp (Z.to_nat n) Hbn Htmp ltac:(lia) o Ho) as Hrun.
    cbn zeta in Hrun. unfold UNet.decode, range.
    replace (n - Z.of_nat (Z.to_nat n)) with 0 in Hrun by lia.
    unfold net in *. cbn [UNet.n_layers UNet.train assembled] in *.
    by replace (n - 0) with (Z.of_nat (Z.to_nat n)) by lia. }
  destruct (all_even (Z.to_nat n) L).
  - eapply yields_bind; [exact Henc|]. intros [o tmp] [Ho Htmp]. simpl in Ho, Htmp.
    eapply yields_bind; [by apply Hmid|]. intros o1 Ho1. cbv beta in *.
    eapply yields_bind; [by apply Hdec|]. intros o2 Ho2. cbv beta in *.
    unfold remaining_channels in Ho2. rewrite decide_False in Ho2 by lia.
    eapply yields_bind; [by eapply cat_shape|]. intros o3 Ho3. cbv beta in *.
    unfold net.
    cbn [UNet.out UNet.train assembled Sequential.train fmap list_fmap nn.train
         Sequential.forward Sequential.forward_module].
    eapply yields_bind.
    { eapply yields_bind.
      - apply (conv1d_same b (1 + c) L o3); [|lia..].
        rewrite Ho3. do 2 f_equal. lia.
      - intros o4 Ho4. cbv beta in *.
        eapply yields_bind; [by eapply tanh_shape|]. intros o5 Ho5.
        apply yields_ret. exact Ho5. }
    intros o6 Ho6. by apply yields_ret.
  - eapply fails_bind_later; [exact Henc|]. intros [o tmp] [Ho Htmp]. simpl in Ho, Htmp.
    eapply fails_bind_later; [by apply Hmid|]. intros o1 Ho1. cbv beta in *.
    apply fails_bind_now. by apply Hdec.
Qed.

End Forward.

(** ** What the forward pass writes *)

Section Frame.

Variable k : nat.

Lemma keeps_ret {A} (a : A) (P : A → Prop) : P a → keeps k (ret a) P.
Proof. intros Ha σ σ' r Hk [= <- <-]. split_and!; [done..|]. by intros ? [= <-]. Qed.

Lemma keeps_lift {A} (r : result A) : keeps k (lift r) (λ a, r = OK a).
Proof. intros σ σ' r' Hk [= <- <-]. done. Qed.

Lemma keeps_raise {A} (e : exception) (P : A → Prop) : keeps k (raise e) P.
Proof. intros σ σ' r' Hk [= <- <-]. done. Qed.

Lemma keeps_bind {A B} (m : M A) (f : A → M B) (P : A → Prop) (Q : B → Prop) :
  keeps k m P → (∀ a, P a → keeps k (f a) Q) → keeps k (let* a := m in f a) Q.
Proof.
  intros Hm Hf σ σ' r Hk. unfold torch.bind.
  destruct (m σ) as [σ1 [a|e]] eqn:Hrun.
  - destruct (Hm _ _ _ Hk Hrun) as (Hk1 & Hsame & Ha). intros Hrun'.
    destruct (Hf a (Ha a eq_refl) _ _ _ Hk1 Hrun') as (Hk2 & Hsame' & Hb).
    split_and!; [done| |done]. intros l Hl. rewrite Hsame', Hsame; done.
  - destruct (Hm _ _ _ Hk Hrun) as (Hk1 & Hsame & _). intros [= <- <-]. done.
Qed.

Lemma keeps_impl {A} (m : M A) (P Q : A → Prop) :
  keeps k m P → (∀ a, P a → Q a) → keeps k m Q.
Proof.
  intros Hm HPQ σ σ' r Hk Hrun. destruct (Hm _ _ _ Hk Hrun) as (? & ? & Ha).
  split_and!; [done..|]. auto.
Qed.

Lemma keeps_for {St} (body : Z → St → M St) (iter : list Z) :
  (∀ i s, keeps k (body i s) (λ _, True)) →
  ∀ s, keeps k (for_ iter body s) (λ _, True).
Proof.
  intros Hbody. induction iter as [|i iter IH]; intros s; simpl.
  - by apply keeps_ret.
  - eapply keeps_bind; [apply Hbody|]. intros s' _. apply IH.
Qed.

Lemma keeps_alloc (d : data) (sh : Z * Z * Z) : keeps k (alloc d sh) (fresh k).
Proof.
  intros σ σ' r Hk [= <- <-]. split_and!.
  - rewrite length_app. lia.
  - intros l Hl. by rewrite lookup_app_l by lia.
  - intros y [= <-]. done.
Qed.

Lemma keeps_conv1d (cin cout ks st p d : Z) (x : tensor) :
  keeps k (conv1d cin cout ks st p d x) (fresh k).
Proof.
  unfold conv1d. destruct (shape x) as [[? ?] ?]. case_bool_decide.
  - intros σ σ' r. apply keeps_alloc.
  - apply keeps_raise.
Qed.

Lemma keeps_batch_norm (training : bool) (c : Z) (x : tensor) :
  keeps k (batch_norm training c x) (fresh k).
Proof.
  unfold batch_norm. destruct (shape x) as [[? ?] ?].
  destruct (training && _); [apply keeps_raise|]. case_bool_decide.
  - intros σ σ' r. apply keeps_alloc.
  - apply keeps_raise.
Qed.

Lemma keeps_tanh (x : tensor) : keeps k (torch.tanh x) (fresh k).
Proof. intros σ σ' r. apply keeps_alloc. Qed.

Lemma keeps_interpolate (x : tensor) : keeps k (interpolate x) (fresh k).
Proof.
  unfold interpolate. destruct (shape x) as [[? ?] ?]. case_bool_decide.
  - intros σ σ' r. apply keeps_alloc.
  - apply keeps_raise.
Qed.

Lemma keeps_cat (x y : tensor) : keeps k (cat x y) (fresh k).
Proof.
  unfold cat. destruct (shape x) as [[? ?] ?], (shape y) as [[? ?] ?]. case_bool_decide.
  - intros σ σ' r. apply keeps_alloc.
  - apply keeps_raise.
Qed.

(** An in-place activation is harmless on a tensor allocated after the
    first [k] storages, and an allocating layer is harmless anywhere. *)
Lemma keeps_module (m : nn.module) (x : tensor) :
  allocates m = true ∨ fresh k x → keeps k (Sequential.forward_module m x) (fresh k).
Proof.
  intros Hm. destruct m as [cin cout ks st p d|c training|a inplace|]; simpl.
  - apply keeps_conv1d.
  - apply keeps_batch_norm.
  - unfold leaky_relu. destruct inplace.
    + destruct Hm as [?|Hx]; [done|].
      intros σ σ' r Hk [= <- <-]. split_and!.
      * by rewrite length_alter.
      * intros l Hl. apply list_lookup_alter_ne. unfold fresh in Hx. lia.
      * by intros y [= <-].
    + intros σ σ' r. apply keeps_alloc.
  - apply keeps_tanh.
Qed.

Lemma keeps_sequential_fresh (s : nn.Sequential) :
  ∀ x, fresh k x → keeps k (Sequential.forward s x) (fresh k).
Proof.
  induction s as [|m s IH]; intros x Hx; simpl.
  - by apply keeps_ret.
  - eapply keeps_bind; [apply keeps_module; by right|]. intros y Hy. by apply IH.
Qed.

Lemma keeps_sequential (s : nn.Sequential) (x : tensor) :
  starts_fresh s → keeps k (Sequential.forward s x) (fresh k).
Proof.
  destruct s as [|m s]; [done|]. simpl. intros Hm.
  eapply keeps_bind; [apply keeps_module; by left|].
  intros y Hy. by apply keeps_sequential_fresh.
Qed.

End Frame.

Lemma for_append_Forall {A} (body : Z → result A) (P : A → Prop) (iter : list Z) (xs : list A) :
  (∀ i x, body i = OK x → P x) → for_append body iter = OK xs → Forall P xs.
Proof.
  intros Hbody Hrun%for_append_inv.
  induction Hrun as [|i x iter xs Hx _ IH]; constructor; eauto.
Qed.

Lemma bind_OK_inv {A B} (m : result A) (f : A → result B) (b : B) :
  (let! a := m in f a) = OK b → ∃ a, m = OK a ∧ f a = OK b.
Proof. destruct m as [a|e]; [|done]. simpl. eauto. Qed.

(** Whatever the arguments, a network that was constructed has layers that
    start with a convolution. *)
Lemma init_starts_fresh (pad : Z → Z → Z → Z → Z) (n c ke kd : Z)
    (oe od : option DilationConfig) (net : UNet.t) :
  UNet.__init__ pad n c ke kd oe od = OK net →
  Forall (λ l, starts_fresh (DownSamplingLayer.main l)) (UNet.encoder net)
  ∧ starts_fresh (UNet.middle net)
  ∧ Forall (λ l, starts_fresh (UpSamplingLayer.main l)) (UNet.decoder net)
  ∧ UNet.out net = [ nn.Conv1d (1 + c) 1 1 1 0 1; nn.Tanh ].
Proof.
  unfold UNet.__init__. intros Hinit.
  apply bind_OK_inv in Hinit as (enc & Henc & Hinit).
  apply bind_OK_inv in Hinit as (dec & Hdec & [= <-]). simpl.
  split_and!; [| done | | done].
  - refine (for_append_Forall _ _ _ _ _ Henc). intros i x Hx.
    repeat (apply bind_OK_inv in Hx as (? & _ & Hx)). by injection Hx as <-.
  - refine (for_append_Forall _ _ _ _ _ Hdec). intros i x Hx.
    repeat (apply bind_OK_inv in Hx as (? & _ & Hx)). by injection Hx as <-.
Qed.

Lemma fmap_fixed {A} (f : A → A) (xs : list A) : Forall (λ x, f x = x) xs → f <$> xs = xs.
Proof. induction 1 as [|x xs Hx _ IH]; [done|]. rewrite fmap_cons. by f_equal. Qed.

(** A network fresh from the constructor is in training mode. *)
Lemma init_train_true (pad : Z → Z → Z → Z → Z) (n c ke kd : Z)
    (oe od : option DilationConfig) (net : UNet.t) :
  UNet.__init__ pad n c ke kd oe od = OK net → UNet.train true net = net.
Proof.
  unfold UNet.__init__. intros Hinit.
  apply bind_OK_inv in Hinit as (enc & Henc & Hinit).
  apply bind_OK_inv in Hinit as (dec & Hdec & [= <-]).
  unfold UNet.train.
  cbn [UNet.n_layers UNet.channels_interval UNet.encoder UNet.middle UNet.decoder UNet.out].
  f_equal.
  - apply fmap_fixed. refine (for_append_Forall _ _ _ _ _ Henc). intros i x Hx.
    repeat (apply bind_OK_inv in Hx as (? & _ & Hx)). by injection Hx as <-.
  - apply fmap_fixed. refine (for_append_Forall _ _ _ _ _ Hdec). intros i x Hx.
    repeat (apply bind_OK_inv in Hx as (? & _ & Hx)). by injection Hx as <-.
Qed.

Lemma halved_multiple (n k : Z) : 0 ≤ n → halved n (k * 2 ^ n) = k.
Proof.
  intros Hn. assert (Hp : 0 < 2 ^ n) by (apply Z.pow_pos_nonneg; lia).
  pose proof (halved_divide n (k * 2 ^ n) Hn ltac:(by exists k)). nia.
Qed.

Lemma getitem_elem_of {A} (l : list A) (i : Z) (x : A) : getitem l i = OK x → x ∈ l.
Proof.
  unfold getitem. destruct (decide (0 ≤ _)); [|done].
  destruct (l !! _) eqn:Hx; [|done]. intros [= <-]. by eapply list_elem_of_lookup_2.
Qed.

Section FrameForward.

Variables (k : nat) (self : UNet.t).
Hypothesis Henc : Forall (λ l, starts_fresh (DownSamplingLayer.main l)) (UNet.encoder self).
Hypothesis Hmid : starts_fresh (UNet.middle self).
Hypothesis Hdec : Forall (λ l, starts_fresh (UpSamplingLayer.main l)) (UNet.decoder self).

Lemma keeps_encode (ipt : tensor) : keeps k (UNet.encode self ipt) (λ _, True).
Proof using Henc.
  unfold UNet.encode. apply keeps_for. intros i [o tmp].
  eapply keeps_bind; [apply keeps_lift|]. intros layer Hlayer%getitem_elem_of. cbv beta.
  eapply keeps_bind.
  { apply keeps_sequential. by apply (proj1 (Forall_forall _ _) Henc). }
  intros o' _. by apply keeps_ret.
Qed.

Lemma keeps_decode (tmp : list tensor) (o : tensor) :
  keeps k (UNet.decode self tmp o) (λ _, True).
Proof using Hdec.
  unfold UNet.decode. apply keeps_for. intros i o1.
  eapply keeps_bind; [apply keeps_interpolate|]. intros o2 _. cbv beta.
  eapply keeps_bind; [apply keeps_lift|]. intros skip _. cbv beta.
  eapply keeps_bind; [apply keeps_cat|]. intros o3 _. cbv beta.
  eapply keeps_bind; [apply keeps_lift|]. intros layer Hlayer%getitem_elem_of. cbv beta.
  eapply keeps_impl.
  { apply keeps_sequential. by apply (proj1 (Forall_forall _ _) Hdec). }
  done.
Qed.

(** Lines 122-140: everything before the final concatenation. *)
Lemma keeps_features (ipt : tensor) :
  keeps k (let* (o, tmp) := UNet.encode self ipt in
           let* o := Sequential.forward (UNet.middle self) o in
           UNet.decode self tmp o) (λ _, True).
Proof using Henc Hmid Hdec.
  eapply keeps_bind; [apply keeps_encode|]. intros [o tmp] _.
  eapply keeps_bind; [by apply keeps_sequential|]. intros o1 _. cbv beta.
  apply keeps_decode.
Qed.

End FrameForward.

(** The forward pass is that prefix followed by the concatenation with
    [ipt] and the output head. *)
Lemma forward_unfold (self : UNet.t) (ipt : tensor) (σ : store) :
  UNet.forward self ipt σ =
  (let* o := (let* (o, tmp) := UNet.encode self ipt in
              let* o := Sequential.forward (UNet.middle self) o in
              UNet.decode self tmp o) in
   let* o := cat o ipt in
   Sequential.forward (UNet.out self) o) σ.
Proof.
  unfold UNet.forward, torch.bind.
  destruct (UNet.encode self ipt σ) as [σ1 [[o tmp]|e]]; [|done].
  destruct (Sequential.forward (UNet.middle self) o σ1) as [σ2 [o1|e]]; [|done].
  destruct (UNet.decode self tmp o1 σ2) as [σ3 [o2|e]]; [|done].
  destruct (cat o2 ipt σ3) as [σ4 [o3|e]]; [|done].
  by destruct (Sequential.forward (UNet.out self) o3 σ4) as [σ5 [o4|e]].
Qed.

Lemma bind_run {A B} (m : M A) (f : A → M B) (σ : store) :
  (let* a := m in f a) σ =
  match m σ with
  | (σ', OK a) => f a σ'
  | (σ', Raise e) => (σ', Raise e)
  end.
Proof. done. Qed.

Lemma read_alloc (σ : store) (d : data) (sh : Z * Z * Z) :
  read (σ ++ [d]) {| storage := length σ; step := 1; shape := sh |} = d.
Proof. unfold read. simpl. by rewrite list_lookup_middle. Qed.

Lemma read_same (σ σ' : store) (x : tensor) :
  σ' !! storage x = σ !! storage x → read σ' x = read σ x.
Proof. unfold read. by intros ->. Qed.

(** Lines 142-143 on a store [σ]: three storages are appended, and the
    result holds the head applied to the concatenation of what [o] and
    [ipt] hold in [σ]. *)
Lemma head_run (c : Z) (o ipt : tensor) (σ σ' : store) (r : result tensor) :
  (let* o := cat o ipt in
   Sequential.forward [ nn.Conv1d (1 + c) 1 1 1 0 1; nn.Tanh ] o) σ = (σ', r) →
  (∃ ext, σ' = σ ++ ext)
  ∧ ∀ y, r = OK y →
      read σ' y = Tanh (Conv (1 + c) 1 1 1 0 1 (Cat (read σ o) (read σ ipt))).
Proof.
  unfold torch.bind, cat. destruct (shape o) as [[n1 c1] l1], (shape ipt) as [[n2 c2] l2].
  case_bool_decide; cycle 1.
  { intros [= <- <-]. split; [by exists []; rewrite app_nil_r|done]. }
  cbn [alloc Sequential.forward Sequential.forward_module]. unfold torch.bind, conv1d.
  cbn [shape]. case_bool_decide; cycle 1.
  { intros [= <- <-]. split; [by eexists|done]. }
  cbn [alloc torch.tanh ret]. intros [= <- <-]. split.
  - eexists. by rewrite <- !app_assoc.
  - intros y [= <-]. by rewrite !read_alloc.
Qed.

(** ** Dilation dictionaries *)

Lemma equal_lengths_cover (n : Z) (d : DilationConfig) :
  length (layers d) = length (dilated_rates d) → rates_cover n d.
Proof.
  intros Hlen i j _ (Hj & _)%list_find_Some.
  rewrite <- Hlen. by eapply lookup_lt_Some.
Qed.

Lemma stage_dilation_listed (d : DilationConfig) (i : Z) (j : nat) (r : Z) :
  NoDup (layers d) → layers d !! j = Some i → dilated_rates d !! j = Some r → r ≠ 0 →
  stage_dilation d i = r.
Proof.
  intros Hnodup Hj Hr Hr0. unfold stage_dilation.
  destruct (list_find_eq_Some (layers d) i) as [j' Hj'];
    [by eapply list_elem_of_lookup_2|].
  rewrite Hj'. apply list_find_Some in Hj' as (Hj' & _).
  rewrite (NoDup_lookup _ _ _ _ Hnodup Hj' Hj), Hr. by apply rate_or_1_Some.
Qed.

Lemma stage_dilation_unlisted (d : DilationConfig) (i : Z) :
  i ∉ layers d → stage_dilation d i = 1.
Proof.
  intros Hi. unfold stage_dilation.
  assert (Hnone : list_find (λ y, y = i) (layers d) = None).
  { apply list_find_None, Forall_forall. by intros y Hy ->. }
  by rewrite Hnone.
Qed.

(** The padding modelled from section 4.1 is a same-padding for every odd
    kernel size. *)
Lemma same_padding_odd (l_in q dilation : Z) :
  2 * same_padding l_in (2 * q + 1) 1 dilation = dilation * (2 * q + 1 - 1).
Proof.
  unfold same_padding.
  replace ((l_in - 1) * 1 - l_in + dilation * (2 * q + 1 - 1) + 1 + 1)
    with (1 + dilation * q * 2) by lia.
  rewrite Z.div_add by lia. change (1 / 2) with 0. lia.
Qed.

(** ** Even kernel sizes *)

Lemma conv1d_shape (b c l : Z) (x : tensor) (cout k s p d : Z) :
  shape x = (b, c, l) → 0 < k → 0 < s → 0 ≤ p → 0 < d → d * (k - 1) + 1 ≤ l + 2 * p →
  yields (conv1d c cout k s p d x)
    (λ y, shape y = (b, cout, (l + 2 * p - d * (k - 1) - 1) / s + 1)).
Proof.
  intros Hx Hk Hs Hp Hd Hl σ. unfold conv1d. rewrite Hx.
  rewrite bool_decide_eq_true_2 by done. by eexists _, _.
Qed.

Lemma conv1d_negative_padding (b c l : Z) (x : tensor) (cin cout k s p d : Z) :
  shape x = (b, c, l) → p < 0 → fails (conv1d cin cout k s p d x) RuntimeError.
Proof.
  intros Hx Hp σ. unfold conv1d. rewrite Hx.
  rewrite bool_decide_eq_false_2 by lia. by eexists.
Qed.

(** Whatever the padding helper returns, an encoder convolution of kernel
    size 2 and dilation 1 changes the length by an odd amount, and the
    first concatenation of the decoder raises, unless a normalisation in
    training mode has met a single value before (batch 1, padding 0). *)
Lemma even_kernel_raises (pad : Z → Z → Z → Z → Z) (training : bool) (b : Z) (ipt : tensor) :
  shape ipt = (b, 1, 2) →
  ¬ (training = true ∧ b = 1 ∧ pad 1 2 1 1 = 0) →
  fails (UNet.forward (UNet.train training
                         (assembled pad 1 1 2 5 no_dilation no_dilation)) ipt) RuntimeError.
Proof.
  intros Hipt Hok. unfold UNet.forward, UNet.encode, UNet.decode, assembled, UNet.train.
  cbn [UNet.n_layers UNet.encoder UNet.decoder UNet.middle UNet.out].
  change (range 0 1) with [0]. change (seqZ 0 1) with [0].
  cbn [for_ fmap list_fmap]. unfold encoder_stage, decoder_stage.
  change (stage_dilation no_dilation (0 + 1)) with 1.
  change (stage_in 1 0) with 1.
  set (p := pad 1 2 1 1) in *.
  match goal with |- context [getitem [?x] 0] => set (down := x) end.
  assert (Hdown : yields (lift (getitem [down] 0)) (λ y, y = down))
    by (by apply (yields_lift _ down)).
  destruct (decide (0 ≤ p)) as [Hp|Hp].
  - assert (Hbn : ∀ l, 0 ≤ l → (l = 1 → p = 0) → ¬ (training = true ∧ b * l = 1)).
    { intros l Hl Hl1 [Htr Hone]. apply Hok.
      apply Z.eq_mul_1_nonneg' in Hone as [-> ->]; [|done]. auto. }
    eapply fails_bind_later.
    { (* the encoder stage *)
      eapply yields_bind.
      - eapply yields_bind; [exact Hdown|].
        intros layer ->. cbv beta. subst down.
        eapply yields_bind.
        + unfold DownSamplingLayer.forward, DownSamplingLayer.train,
            DownSamplingLayer.__init__.
          cbn [DownSamplingLayer.main Sequential.train fmap list_fmap nn.train
               Sequential.forward Sequential.forward_module].
          eapply yields_bind; [eapply (conv1d_shape b 1 2 ipt); [exact Hipt|lia..]|].
          intros y1 Hy1. cbv beta in *.
          eapply yields_bind.
          { eapply outcome_yields; [by eapply batch_norm_outcome|].
            intros e (_ & Htr & Hone). rewrite Z.div_1_r in Hone.
            apply (Hbn (2 + 2 * p - 1 * (2 - 1) - 1 + 1)); [lia|lia|done]. }
          intros y2 Hy2. cbv beta in *.
          eapply yields_bind; [by eapply leaky_relu_shape|]. intros y3 Hy3. cbv beta in *.
          apply yields_ret. exact Hy3.
        + intros o Ho. cbv beta in *.
          apply (yields_ret _ (λ s, shape s.1 = (b, 1, p + 1)
                                    ∧ ∃ t, s.2 = [t] ∧ shape t = (b, 1, 2 * p + 1))).
          simpl. split.
          * rewrite (every_second_shape _ _ _ _ Ho). do 2 f_equal.
            rewrite Z.div_1_r.
            replace (2 + 2 * p - 1 * (2 - 1) - 1 + 1 + 1) with ((p + 1) * 2) by lia.
            by rewrite Z.div_mul by lia.
          * exists o. split; [done|]. rewrite Ho, Z.div_1_r. do 2 f_equal. lia.
      - intros s Hs. apply yields_ret. exact Hs. }
    intros [o tmp] (Ho & t & Htmp & Ht). simpl in Ho, Htmp. subst tmp.
    eapply fails_bind_later.
    { eapply (up_forward_same training b (1 * 1) (p + 1) o (1 * 1) 1 15 7); [done|lia..|].
      apply Hbn; lia. }
    intros o1 Ho1. cbv beta in *.
    apply fails_bind_now, fails_bind_now.
    eapply fails_bind_later; [eapply interpolate_shape; [exact Ho1|lia]|].
    intros o2 Ho2. cbv beta in *.
    eapply fails_bind_later; [by apply (yields_lift _ t (λ y, y = t))|].
    intros ? ->. cbv beta.
    apply fails_bind_now. eapply cat_mismatch; [done..|]. lia.
  - apply fails_bind_now, fails_bind_now.
    eapply fails_bind_later; [exact Hdown|].
    intros layer ->. cbv beta. subst down.
    apply fails_bind_now.
    unfold DownSamplingLayer.forward, DownSamplingLayer.train, DownSamplingLayer.__init__.
    cbn [DownSamplingLayer.main Sequential.train fmap list_fmap nn.train
         Sequential.forward Sequential.forward_module].
    apply fails_bind_now. eapply conv1d_negative_padding; [done|lia].
Qed.

(** * The claims *)

(** C1 (amended).  With both dilation dictionaries supplied, each with as
    many rates as layers and positive rates, with odd kernel sizes and a
    padding helper that returns [dilation * (kernel_size - 1) / 2] at stride
    1, the constructor succeeds, and on every input of shape [(b, 1, L)],
    [L = k * 2 ^ n_layers], [k >= 1], the forward pass returns a tensor of
    shape [(b, 1, L)]: always once the network is in evaluation mode, and in
    training mode, the mode of a network fresh from the constructor, unless
    [b * k = 1], when a [BatchNorm1d] raises [ValueError]. *)
Theorem forward_shape (pad : Z → Z → Z → Z → Z) (n c ke kd : Z) (de dd : DilationConfig)
    (b k L : Z) (ipt : tensor) (σ : store) :
  1 ≤ n → 0 < ke → 0 < kd →
  (∀ l d, 0 < d → 2 * pad l ke 1 d = d * (ke - 1)) →
  (∀ l d, 0 < d → 2 * pad l kd 1 d = d * (kd - 1)) →
  length (layers de) = length (dilated_rates de) →
  length (layers dd) = length (dilated_rates dd) →
  Forall (λ r, 0 < r) (dilated_rates de) →
  Forall (λ r, 0 < r) (dilated_rates dd) →
  1 ≤ k → L = k * 2 ^ n → shape ipt = (b, 1, L) →
  ∃ net, UNet.__init__ pad n c ke kd (Some de) (Some dd) = OK net
    ∧ (∃ σ' o, UNet.forward (UNet.eval net) ipt σ = (σ', OK o) ∧ shape o = (b, 1, L))
    ∧ (b * k ≠ 1 → ∃ σ' o, UNet.forward net ipt σ = (σ', OK o) ∧ shape o = (b, 1, L))
    ∧ (b * k = 1 → ∃ σ', UNet.forward net ipt σ = (σ', Raise ValueError)).
Proof.
  intros Hn Hke Hkd Hpe Hpd Hle Hld Hre Hrd Hk HL Hipt.
  exists (assembled pad n c ke kd de dd).
  assert (Hinit : UNet.__init__ pad n c ke kd (Some de) (Some dd)
                  = OK (assembled pad n c ke kd de dd))
    by (apply init_assembled; by apply equal_lengths_cover).
  pose proof (init_train_true _ _ _ _ _ _ _ _ Hinit) as Htrain.
  assert (Hpow : 0 < 2 ^ n) by (apply Z.pow_pos_nonneg; lia).
  assert (HL1 : 1 ≤ L) by nia.
  assert (Heven : all_even (Z.to_nat n) L = true).
  { apply all_even_divide. rewrite Z2Nat.id by lia. by exists k. }
  assert (Hh : halved n L = k) by (subst L; apply halved_multiple; lia).
  split_and!; [done| | |].
  - pose proof (forward_run pad n c ke kd de dd b L false Hn Hke Hkd Hpe Hpd Hre Hrd
                  HL1 ipt Hipt) as Hrun.
    cbv zeta in Hrun. rewrite Heven in Hrun. apply Hrun. by intros [? _].
  - intros Hbk.
    pose proof (forward_run pad n c ke kd de dd b L true Hn Hke Hkd Hpe Hpd Hre Hrd
                  HL1 ipt Hipt) as Hrun.
    cbv zeta in Hrun. rewrite Htrain, Heven in Hrun. apply Hrun.
    rewrite Hh. by intros [_ ?].
  - intros Hbk.
    pose proof (forward_run_single pad n c ke kd de dd b L true Hn Hke Hpe Hre
                  HL1 ipt Hipt eq_refl) as Hrun.
    cbv zeta in Hrun. rewrite Htrain, Hh in Hrun. by apply Hrun.
Qed.

Lemma forward_shape_witness :
  ∃ net, UNet.__init__ same_padding 2 4 15 5 (Some no_dilation) (Some no_dilation) = OK net
    ∧ (∃ σ' o, UNet.forward (UNet.eval net) (input 1 16) [Samples 0] = (σ', OK o)
               ∧ shape o = (1, 1, 16))
    ∧ (1 * 4 ≠ 1 → ∃ σ' o, UNet.forward net (input 1 16) [Samples 0] = (σ', OK o)
                           ∧ shape o = (1, 1, 16))
    ∧ (1 * 4 = 1 → ∃ σ', UNet.forward net (input 1 16) [Samples 0] = (σ', Raise ValueError)).
Proof.
  apply (forward_shape same_padding 2 4 15 5 no_dilation no_dilation 1 4 16);
    try done.
  - intros l d _. apply (same_padding_odd l 7 d).
  - intros l d _. apply (same_padding_odd l 2 d).
Defined.

(** C1 as stated fails in two ways.  With an even kernel size no padding
    keeps the length: one encoder stage of kernel size 2 on an input of
    2 = 1 * 2^1 samples ends in a [RuntimeError].  And with the default
    kernel sizes a network fresh from the constructor raises [ValueError]
    on a single sequence of 2 = 1 * 2^1 samples, whose bottleneck tensor
    holds one value per channel. *)
Lemma forward_shape_exceptions :
  (∃ net, UNet.__init__ same_padding 1 1 2 5 (Some no_dilation) (Some no_dilation) = OK net
          ∧ (UNet.forward net (input 1 2) [Samples 0]).2 = Raise RuntimeError)
  ∧ (∃ net, UNet.__init__ same_padding 1 4 15 5 (Some no_dilation) (Some no_dilation) = OK net
            ∧ (UNet.forward net (input 1 2) [Samples 0]).2 = Raise ValueError).
Proof. split; eexists; split; reflexivity. Qed.

(** C7 (amended).  Under the same conditions on the configuration, an
    input of shape [(b, 1, L)] whose length is not a multiple of
    [2 ^ n_layers] makes the forward pass raise, and no tensor is returned:
    in evaluation mode the [RuntimeError] of a skip concatenation; in
    training mode, the mode of a network fresh from the constructor, the
    same, except that the [ValueError] of a [BatchNorm1d] comes first when
    [b * ceil(L / 2 ^ n_layers) = 1]. *)
Theorem forward_rejects_other_lengths (pad : Z → Z → Z → Z → Z) (n c ke kd : Z)
    (de dd : DilationConfig) (b L : Z) (ipt : tensor) (σ : store) :
  1 ≤ n → 0 < ke → 0 < kd →
  (∀ l d, 0 < d → 2 * pad l ke 1 d = d * (ke - 1)) →
  (∀ l d, 0 < d → 2 * pad l kd 1 d = d * (kd - 1)) →
  length (layers de) = length (dilated_rates de) →
  length (layers dd) = length (dilated_rates dd) →
  Forall (λ r, 0 < r) (dilated_rates de) →
  Forall (λ r, 0 < r) (dilated_rates dd) →
  1 ≤ L → ¬ (2 ^ n | L) → shape ipt = (b, 1, L) →
  ∃ net, UNet.__init__ pad n c ke kd (Some de) (Some dd) = OK net
    ∧ (∃ σ', UNet.forward (UNet.eval net) ipt σ = (σ', Raise RuntimeError))
    ∧ (∃ σ', UNet.forward net ipt σ
             = (σ', Raise (if bool_decide (b * ((L + 2 ^ n - 1) / 2 ^ n) = 1)
                           then ValueError else RuntimeError))).
Proof.
  intros Hn Hke Hkd Hpe Hpd Hle Hld Hre Hrd HL Hndiv Hipt.
  exists (assembled pad n c ke kd de dd).
  assert (Hinit : UNet.__init__ pad n c ke kd (Some de) (Some dd)
                  = OK (assembled pad n c ke kd de dd))
    by (apply init_assembled; by apply equal_lengths_cover).
  pose proof (init_train_true _ _ _ _ _ _ _ _ Hinit) as Htrain.
  assert (Hodd : all_even (Z.to_nat n) L = false).
  { destruct (all_even (Z.to_nat n) L) eqn:Heven; [|done].
    apply all_even_divide in Heven. rewrite Z2Nat.id in Heven by lia. done. }
  split_and!; [done| |].
  - pose proof (forward_run pad n c ke kd de dd b L false Hn Hke Hkd Hpe Hpd Hre Hrd
                  HL ipt Hipt) as Hrun.
    cbv zeta in Hrun. rewrite Hodd in Hrun. apply Hrun. by intros [? _].
  - fold (halved n L). case_bool_decide as Hone.
    + pose proof (forward_run_single pad n c ke kd de dd b L true Hn Hke Hpe Hre
                    HL ipt Hipt eq_refl Hone) as Hrun.
      cbv zeta in Hrun. rewrite Htrain in Hrun. apply Hrun.
    + pose proof (forward_run pad n c ke kd de dd b L true Hn Hke Hkd Hpe Hpd Hre Hrd
                    HL ipt Hipt) as Hrun.
      cbv zeta in Hrun. rewrite Htrain, Hodd in Hrun. apply Hrun. by intros [_ ?].
Qed.

Lemma forward_rejects_other_lengths_witness :
  ∃ net, UNet.__init__ same_padding 2 4 15 5 (Some no_dilation) (Some no_dilation) = OK net
    ∧ (∃ σ', UNet.forward (UNet.eval net) (input 1 17) [Samples 0] = (σ', Raise RuntimeError))
    ∧ (∃ σ', UNet.forward net (input 1 17) [Samples 0]
             = (σ', Raise (if bool_decide (1 * ((17 + 2 ^ 2 - 1) / 2 ^ 2) = 1)
                           then ValueError else RuntimeError))).
Proof.
  apply (forward_rejects_other_lengths same_padding 2 4 15 5 no_dilation no_dilation 1 17);
    try done.
  - intros l d _. apply (same_padding_odd l 7 d).
  - intros l d _. apply (same_padding_odd l 2 d).
  - intros [q Hq]. lia.
Defined.

(** C7 as stated fails in two ways.  Without its dictionaries the network
    is not assembled at all.  And on a single sequence of 3 samples a
    two-layer network fresh from the constructor raises, at the bottleneck,
    the [ValueError] of a normalisation that received one value per
    channel: not a shape error, although 4 does not divide 3. *)
Lemma other_lengths_value_error :
  UNet.__init__ same_padding 2 4 15 5 None None = Raise TypeError
  ∧ ∃ net, UNet.__init__ same_padding 2 4 15 5 (Some no_dilation) (Some no_dilation) = OK net
      ∧ ¬ (2 ^ 2 | 3)
      ∧ (UNet.forward net (input 1 3) [Samples 0]).2 = Raise ValueError.
Proof.
  split; [reflexivity|]. eexists. split; [reflexivity|]. split; [|reflexivity].
  intros [q Hq]. lia.
Qed.

(** C6 (defect).  The slice [o[:, :, ::2]] of line 130 keeps the sample at
    position 0, so it rounds an odd length up.  On three samples the first
    encoder stage hands on two, where the claim, and the comment on line
    129, give [3 // 2 = 1]. *)
Lemma decimation_rounds_up :
  ∃ net, UNet.__init__ same_padding 1 4 15 5 (Some no_dilation) (Some no_dilation) = OK net
    ∧ ∃ σ' o tmp, UNet.encode net (input 1 3) [Samples 0] = (σ', OK (o, tmp))
        ∧ shape o = (1, 4, 2) ∧ 3 / 2 ^ 1 = 1
        ∧ slice_step2 [Samples 0; Samples 1; Samples 2] = [Samples 0; Samples 2].
Proof. eexists. split; [reflexivity|]. eexists _, _, _. split; [reflexivity|done]. Qed.

(** C2.  The channel plan of the constructor, for [n_layers >= 1]:
    [encoder_in] is [1, c, 2c, ..., (n-1) c]; [encoder_out[i]] is
    [(i+1) c]; [decoder_out] is [encoder_out] reversed; read from the
    bottleneck, [decoder_in] starts with [2 n c] and continues with
    [(2 k + 1) c] for [k = n - i] at stage [i >= 1]. *)
Theorem channel_plan (n c : Z) :
  1 ≤ n →
  length (UNet.encoder_in_channels_list n c) = Z.to_nat n
  ∧ UNet.encoder_in_channels_list n c !! 0%nat = Some 1
  ∧ (∀ i, 1 ≤ i < n → UNet.encoder_in_channels_list n c !! Z.to_nat i = Some (i * c))
  ∧ length (UNet.encoder_out_channels_list n c) = Z.to_nat n
  ∧ (∀ i, 0 ≤ i < n → UNet.encoder_out_channels_list n c !! Z.to_nat i = Some ((i + 1) * c))
  ∧ UNet.decoder_out_channels_list n c = reverse (UNet.encoder_out_channels_list n c)
  ∧ length (UNet.decoder_in_channels_list n c) = Z.to_nat n
  ∧ UNet.decoder_in_channels_list n c !! 0%nat = Some (2 * n * c)
  ∧ (∀ i, 1 ≤ i < n →
       UNet.decoder_in_channels_list n c !! Z.to_nat i = Some ((2 * (n - i) + 1) * c)).
Proof.
  intros Hn. split_and!.
  - unfold UNet.encoder_in_channels_list, range.
    rewrite length_app, length_fmap, length_seqZ. simpl. lia.
  - done.
  - intros i Hi. rewrite encoder_in_lookup by lia.
    unfold stage_in. by rewrite decide_False by lia.
  - apply encoder_out_length. lia.
  - intros i Hi. by apply encoder_out_lookup.
  - done.
  - unfold UNet.decoder_in_channels_list, range.
    rewrite length_reverse, length_app, length_fmap, length_seqZ. simpl. lia.
  - exact (decoder_in_lookup n c 0 ltac:(lia)).
  - intros i Hi. rewrite decoder_in_lookup by lia.
    unfold stage_cat. by rewrite decide_False by lia.
Qed.

Lemma channel_plan_witness :
  UNet.encoder_in_channels_list 12 24 !! 0%nat = Some 1
  ∧ UNet.encoder_out_channels_list 12 24 !! 11%nat = Some 288
  ∧ UNet.decoder_in_channels_list 12 24 !! 0%nat = Some 576
  ∧ UNet.decoder_in_channels_list 12 24 !! 1%nat = Some 552.
Proof.
  destruct (channel_plan 12 24 ltac:(lia))
    as (_ & Hin0 & _ & _ & Hout & _ & _ & Hdec0 & Hdec).
  split_and!; [exact Hin0|exact (Hout 11 ltac:(lia))|exact Hdec0|exact (Hdec 1 ltac:(lia))].
Defined.

(** C3.  For dictionaries with as many rates as layers, distinct layers and
    positive rates, the constructor succeeds, and the convolution of the
    encoder layer [i] and of the decoder layer [i] (1-based, [1 <= i <=
    n_layers]) is built with the rate stored at the position of [i] in
    [layers], and with dilation 1 when [i] is not listed. *)
Theorem dilation_resolved (pad : Z → Z → Z → Z → Z) (n c ke kd : Z) (de dd : DilationConfig)
    (i : Z) :
  length (layers de) = length (dilated_rates de) →
  length (layers dd) = length (dilated_rates dd) →
  NoDup (layers de) → NoDup (layers dd) →
  Forall (λ r, 0 < r) (dilated_rates de) →
  Forall (λ r, 0 < r) (dilated_rates dd) →
  1 ≤ i ≤ n →
  ∃ net down up,
    UNet.__init__ pad n c ke kd (Some de) (Some dd) = OK net
    ∧ UNet.encoder net !! Z.to_nat (i - 1) = Some down
    ∧ UNet.decoder net !! Z.to_nat (i - 1) = Some up
    ∧ (∀ (j : nat) r, layers de !! j = Some i → dilated_rates de !! j = Some r →
         conv_dilation (DownSamplingLayer.main down) = Some r)
    ∧ (i ∉ layers de → conv_dilation (DownSamplingLayer.main down) = Some 1)
    ∧ (∀ (j : nat) r, layers dd !! j = Some i → dilated_rates dd !! j = Some r →
         conv_dilation (UpSamplingLayer.main up) = Some r)
    ∧ (i ∉ layers dd → conv_dilation (UpSamplingLayer.main up) = Some 1).
Proof.
  intros Hle Hld Hne Hnd Hre Hrd Hi.
  exists (assembled pad n c ke kd de dd),
    (encoder_stage pad c ke de (i - 1)), (decoder_stage pad n c kd dd (i - 1)).
  assert (Hpos : ∀ (d : DilationConfig) (j : nat) r,
            Forall (λ r, 0 < r) (dilated_rates d) → dilated_rates d !! j = Some r → r ≠ 0).
  { intros d j r Hall Hr. pose proof (Forall_lookup_1 _ _ _ _ Hall Hr). simpl in *. lia. }
  split_and!.
  - apply init_assembled; by apply equal_lengths_cover.
  - simpl. rewrite list_lookup_fmap, lookup_seqZ_lt by lia. simpl.
    do 2 f_equal. lia.
  - simpl. rewrite list_lookup_fmap, lookup_seqZ_lt by lia. simpl.
    do 2 f_equal. lia.
  - intros j r Hj Hr. simpl. f_equal. replace (i - 1 + 1) with i by lia.
    eapply stage_dilation_listed; eauto.
  - intros Hout. simpl. f_equal. replace (i - 1 + 1) with i by lia.
    by apply stage_dilation_unlisted.
  - intros j r Hj Hr. simpl. f_equal. replace (i - 1 + 1) with i by lia.
    eapply stage_dilation_listed; eauto.
  - intros Hout. simpl. f_equal. replace (i - 1 + 1) with i by lia.
    by apply stage_dilation_unlisted.
Qed.

Lemma dilation_resolved_witness :
  let cfg := {| layers := [2]; dilated_rates := [3] |} in
  ∃ net down up,
    UNet.__init__ same_padding 3 4 15 5 (Some cfg) (Some no_dilation) = OK net
    ∧ UNet.encoder net !! Z.to_nat (2 - 1) = Some down
    ∧ UNet.decoder net !! Z.to_nat (2 - 1) = Some up
    ∧ (∀ (j : nat) r, layers cfg !! j = Some 2 → dilated_rates cfg !! j = Some r →
         conv_dilation (DownSamplingLayer.main down) = Some r)
    ∧ (2 ∉ layers cfg → conv_dilation (DownSamplingLayer.main down) = Some 1)
    ∧ (∀ (j : nat) r, layers no_dilation !! j = Some 2 →
         dilated_rates no_dilation !! j = Some r →
         conv_dilation (UpSamplingLayer.main up) = Some r)
    ∧ (2 ∉ layers no_dilation → conv_dilation (UpSamplingLayer.main up) = Some 1).
Proof.
  intros cfg.
  apply (dilation_resolved same_padding 3 4 15 5 cfg no_dilation 2); try done.
  - apply NoDup_singleton.
  - apply NoDup_nil_2.
  - by repeat constructor.
Defined.

(** C4 fails on the code: called with its default arguments, or with either
    dictionary left out, the constructor raises [TypeError] at the first
    stage it builds from the missing dictionary. *)
Theorem init_without_dilation_raises (pad : Z → Z → Z → Z → Z) :
  UNet.__init__ pad 12 24 15 5 None None = Raise TypeError
  ∧ UNet.__init__ pad 12 24 15 5 None (Some no_dilation) = Raise TypeError
  ∧ UNet.__init__ pad 12 24 15 5 (Some no_dilation) None = Raise TypeError.
Proof. split_and!; reflexivity. Qed.

(** C5 (amended).  The constructor raises, and returns no network, when a
    supplied dictionary lists a layer [i] of [1 .. n_layers] whose first
    position in [layers] is past the end of [dilated_rates]. *)
Theorem uncovered_rate_raises (pad : Z → Z → Z → Z → Z) (n c ke kd : Z)
    (oe od : option DilationConfig) (d : DilationConfig) (i : Z) (j : nat) :
  oe = Some d ∨ od = Some d →
  1 ≤ i ≤ n →
  list_find (λ y, y = i) (layers d) = Some (j, i) →
  (length (dilated_rates d) ≤ j)%nat →
  ∃ e, UNet.__init__ pad n c ke kd oe od = Raise e.
Proof.
  intros Hd Hi Hj Hlen. unfold UNet.__init__.
  assert (Hin : i - 1 ∈ range 0 n) by (apply elem_of_seqZ; lia).
  assert (Hraise : UNet.lookup_dilated_rate (Some d) (i - 1) = Raise IndexError).
  { apply (lookup_dilated_rate_raise d (i - 1) j); [|done].
    by replace (i - 1 + 1) with i by lia. }
  assert (Hnone : UNet.lookup_dilated_rate None (i - 1) = Raise TypeError) by done.
  assert (Hbad : ∃ e, UNet.lookup_dilated_rate oe (i - 1) = Raise e
                      ∨ UNet.lookup_dilated_rate od (i - 1) = Raise e).
  { destruct Hd as [->| ->]; exists IndexError; auto. }
  destruct Hbad as [e Hbad].
  match goal with
  | |- ∃ _, (let! _ := for_append ?body ?iter in _) = _ =>
      destruct (for_append body iter) as [enc|e1] eqn:Henc
  end; [|by exists e1].
  cbn [Py.bind].
  assert (Hod : ∃ e', UNet.lookup_dilated_rate od (i - 1) = Raise e').
  { destruct Hbad as [Hbad|Hbad]; [|by exists e].
    apply for_append_inv in Henc.
    destruct (proj1 (list_elem_of_lookup _ _) Hin) as [p Hp].
    destruct (Forall2_lookup_l _ _ _ _ _ Henc Hp) as (x & _ & Hx).
    cbv beta in Hx. by rewrite Hbad in Hx. }
  destruct Hod as [e' Hod].
  match goal with
  | |- ∃ _, (let! _ := for_append ?body ?iter in _) = _ =>
      destruct (for_append_raise body e' iter (i - 1) Hin) as [e2 ->]
  end; [by rewrite Hod|by exists e2].
Qed.

(** The spec's negative scenario, for two layers. *)
Lemma uncovered_rate_raises_witness :
  ∃ e, UNet.__init__ same_padding 2 4 15 5
         (Some {| layers := [1; 2]; dilated_rates := [3] |}) None = Raise e.
Proof.
  apply (uncovered_rate_raises same_padding 2 4 15 5 _ _
           {| layers := [1; 2]; dilated_rates := [3] |} 2 1);
    [by left|lia|reflexivity|simpl; lia].
Defined.

(** C5 as stated fails: mismatched lengths, an index out of range, a
    duplicate index, and the spec's own example when there is one layer, are
    all accepted. *)
Lemma malformed_dilation_accepted :
  (∃ net, UNet.__init__ same_padding 1 4 15 5
            (Some {| layers := [1]; dilated_rates := [3; 4] |}) (Some no_dilation) = OK net)
  ∧ (∃ net, UNet.__init__ same_padding 2 4 15 5
              (Some {| layers := [5]; dilated_rates := [3] |}) (Some no_dilation) = OK net)
  ∧ (∃ net, UNet.__init__ same_padding 2 4 15 5
              (Some {| layers := [1; 1]; dilated_rates := [2; 3] |}) (Some no_dilation)
            = OK net)
  ∧ (∃ net, UNet.__init__ same_padding 1 4 15 5
              (Some {| layers := [1; 2]; dilated_rates := [3] |}) (Some no_dilation)
            = OK net).
Proof. split_and!; eexists; reflexivity. Qed.

(** C9 (amended).  For every stage [i] of [1 .. n_layers] the padding helper
    is called, for the decoder layer [i] as for the encoder layer [i], with
    [l_in = encoder_in_channels_list[i - 1]]: the number of input channels
    of encoder stage [i], that is [1] for the first stage and
    [(i - 1) * channels_interval] for the others. *)
Theorem padding_l_in (pad : Z → Z → Z → Z → Z) (n c ke kd : Z) (de dd : DilationConfig)
    (i : Z) :
  length (layers de) = length (dilated_rates de) →
  length (layers dd) = length (dilated_rates dd) →
  1 ≤ i ≤ n →
  let l_in := if decide (i = 1) then 1 else (i - 1) * c in
  UNet.encoder_in_channels_list n c !! Z.to_nat (i - 1) = Some l_in
  ∧ ∃ net down up rate_e rate_d,
      UNet.__init__ pad n c ke kd (Some de) (Some dd) = OK net
      ∧ UNet.encoder net !! Z.to_nat (i - 1) = Some down
      ∧ UNet.decoder net !! Z.to_nat (i - 1) = Some up
      ∧ conv_dilation (DownSamplingLayer.main down) = Some rate_e
      ∧ conv_padding (DownSamplingLayer.main down) = Some (pad l_in ke 1 rate_e)
      ∧ conv_dilation (UpSamplingLayer.main up) = Some rate_d
      ∧ conv_padding (UpSamplingLayer.main up) = Some (pad l_in kd 1 rate_d).
Proof.
  intros Hle Hld Hi l_in.
  assert (Hl : stage_in c (i - 1) = l_in).
  { unfold stage_in, l_in.
    destruct (decide (i = 1)); [by rewrite decide_True by lia|by rewrite decide_False by lia]. }
  split; [by rewrite encoder_in_lookup, Hl by lia|].
  exists (assembled pad n c ke kd de dd),
    (encoder_stage pad c ke de (i - 1)), (decoder_stage pad n c kd dd (i - 1)),
    (stage_dilation de (i - 1 + 1)), (stage_dilation dd (i - 1 + 1)).
  split_and!.
  - apply init_assembled; by apply equal_lengths_cover.
  - simpl. rewrite list_lookup_fmap, lookup_seqZ_lt by lia. simpl. do 2 f_equal. lia.
  - simpl. rewrite list_lookup_fmap, lookup_seqZ_lt by lia. simpl. do 2 f_equal. lia.
  - done.
  - simpl. by rewrite Hl.
  - done.
  - simpl. by rewrite Hl.
Qed.

Lemma padding_l_in_witness :
  UNet.encoder_in_channels_list 2 4 !! Z.to_nat (2 - 1) = Some 4
  ∧ ∃ net down up rate_e rate_d,
      UNet.__init__ l_in_probe 2 4 15 5 (Some no_dilation) (Some no_dilation) = OK net
      ∧ UNet.encoder net !! Z.to_nat (2 - 1) = Some down
      ∧ UNet.decoder net !! Z.to_nat (2 - 1) = Some up
      ∧ conv_dilation (DownSamplingLayer.main down) = Some rate_e
      ∧ conv_padding (DownSamplingLayer.main down) = Some 4
      ∧ conv_dilation (UpSamplingLayer.main up) = Some rate_d
      ∧ conv_padding (UpSamplingLayer.main up) = Some 4.
Proof.
  apply (padding_l_in l_in_probe 2 4 15 5 no_dilation no_dilation 2); [done|done|lia].
Defined.

(** C9 as stated fails: on 16 samples the two encoder stages work, before
    their decimation, on 16 and 8 samples, while the helper is called for
    both decoder layers with [l_in] 1 and 4. *)
Lemma l_in_is_a_channel_count :
  ∃ probed net σ' o tmp,
    UNet.__init__ l_in_probe 2 4 15 5 (Some no_dilation) (Some no_dilation) = OK probed
    ∧ (λ l, conv_padding (UpSamplingLayer.main l)) <$> UNet.decoder probed = [Some 1; Some 4]
    ∧ UNet.__init__ same_padding 2 4 15 5 (Some no_dilation) (Some no_dilation) = OK net
    ∧ UNet.encode net (input 1 16) [Samples 0] = (σ', OK (o, tmp))
    ∧ shape <$> tmp = [(1, 4, 16); (1, 8, 8)].
Proof. eexists _, _, _, _, _. split_and!; reflexivity. Qed.

(** C10.  The forward pass of a constructed network writes to none of the
    storages that exist when it is called, so the input holds afterwards
    what it held before, whether the call returns or raises; and the tensor
    it returns is the output head applied to a concatenation whose second
    operand is the contents the input had at the call. *)
Theorem forward_keeps_input (pad : Z → Z → Z → Z → Z) (n c ke kd : Z)
    (oe od : option DilationConfig) (net : UNet.t) (ipt : tensor) (σ : store) :
  UNet.__init__ pad n c ke kd oe od = OK net →
  (storage ipt < length σ)%nat →
  let run := UNet.forward net ipt σ in
  (∀ l : nat, (l < length σ)%nat → run.1 !! l = σ !! l)
  ∧ read run.1 ipt = read σ ipt
  ∧ ∀ o, run.2 = OK o →
      ∃ d, read run.1 o = Tanh (Conv (1 + c) 1 1 1 0 1 (Cat d (read σ ipt))).
Proof.
  intros Hinit Hipt run. subst run.
  destruct (init_starts_fresh _ _ _ _ _ _ _ _ Hinit) as (Henc & Hmid & Hdec & Hout).
  rewrite forward_unfold, bind_run.
  match goal with |- context [match ?m σ with _ => _ end] => destruct (m σ) as [σ1 r1] eqn:Hrun end.
  destruct (keeps_features (length σ) net Henc Hmid Hdec ipt σ σ1 r1 (le_n _) Hrun)
    as (Hlen & Hsame & _).
  destruct r1 as [o|e]; cycle 1.
  { simpl. split_and!; [done|by apply read_same, Hsame|done]. }
  rewrite Hout.
  match goal with |- context [torch.bind ?m ?f σ1] => destruct (torch.bind m f σ1) as [σ' r] eqn:Hhead end.
  apply head_run in Hhead as ([ext ->] & Hread). simpl. split_and!.
  - intros l Hl. rewrite lookup_app_l by lia. by apply Hsame.
  - apply read_same. rewrite lookup_app_l by lia. by apply Hsame.
  - intros y ->. exists (read σ1 o). rewrite (Hread y eq_refl).
    do 3 f_equal. by apply read_same, Hsame.
Qed.

Lemma forward_keeps_input_witness :
  ∃ net, UNet.__init__ same_padding 2 4 15 5 (Some no_dilation) (Some no_dilation) = OK net
    ∧ let run := UNet.forward net (input 1 16) [Samples 7] in
      (∀ l : nat, (l < 1)%nat → run.1 !! l = [Samples 7] !! l)
      ∧ read run.1 (input 1 16) = Samples 7
      ∧ ∀ o, run.2 = OK o →
          ∃ d, read run.1 o = Tanh (Conv (1 + 4) 1 1 1 0 1 (Cat d (Samples 7))).
Proof.
  exists (assembled same_padding 2 4 15 5 no_dilation no_dilation).
  split; [reflexivity|].
  exact (forward_keeps_input same_padding 2 4 15 5 (Some no_dilation) (Some no_dilation)
           _ (input 1 16) [Samples 7] eq_refl (Nat.lt_0_succ 0)).
Defined.

(** * Further properties of the constructor *)

Lemma for_append_ext {A} (f g : Z → result A) (iter : list Z) :
  (∀ i, i ∈ iter → f i = g i) → for_append f iter = for_append g iter.
Proof.
  induction iter as [|i iter IH]; intros Hfg; [done|].
  simpl. rewrite (Hfg i) by left. destruct (g i) as [x|e]; [|done]. simpl.
  rewrite IH; [done|]. intros j Hj. apply Hfg. by right.
Qed.

Lemma lookup_dilated_rate_covered (d : DilationConfig) (i : Z) (v : option Z) (j : nat) :
  UNet.lookup_dilated_rate (Some d) i = OK v →
  list_find (λ y, y = i + 1) (layers d) = Some (j, i + 1) →
  (j < length (dilated_rates d))%nat.
Proof.
  intros Hok Hj. destruct (decide (j < length (dilated_rates d))%nat) as [|Hge]; [done|].
  rewrite (lookup_dilated_rate_raise d i j) in Hok by (done || lia). done.
Qed.

(** A constructor call that returns was given dictionaries whose lookups
    are all in range, and returns the network [assembled] describes. *)
Lemma init_OK_inv (pad : Z → Z → Z → Z → Z) (n c ke kd : Z) (de dd : DilationConfig)
    (net : UNet.t) :
  UNet.__init__ pad n c ke kd (Some de) (Some dd) = OK net →
  rates_cover n de ∧ rates_cover n dd ∧ net = assembled pad n c ke kd de dd.
Proof.
  intros Hinit.
  assert (Hcov : rates_cover n de ∧ rates_cover n dd).
  { unfold UNet.__init__ in Hinit.
    apply bind_OK_inv in Hinit as (enc & Henc & Hinit).
    apply bind_OK_inv in Hinit as (dec & Hdec & _).
    apply for_append_inv in Henc. apply for_append_inv in Hdec.
    split; intros i j Hi Hj.
    - assert (Hin : i - 1 ∈ range 0 n) by (apply elem_of_seqZ; lia).
      destruct (proj1 (list_elem_of_lookup _ _) Hin) as [p Hp].
      destruct (Forall2_lookup_l _ _ _ _ _ Henc Hp) as (x & _ & Hx). cbv beta in Hx.
      apply bind_OK_inv in Hx as (v & Hv & _).
      apply (lookup_dilated_rate_covered de (i - 1) v j Hv).
      by replace (i - 1 + 1) with i by lia.
    - assert (Hin : i - 1 ∈ range 0 n) by (apply elem_of_seqZ; lia).
      destruct (proj1 (list_elem_of_lookup _ _) Hin) as [p Hp].
      destruct (Forall2_lookup_l _ _ _ _ _ Hdec Hp) as (x & _ & Hx). cbv beta in Hx.
      apply bind_OK_inv in Hx as (v & Hv & _).
      apply (lookup_dilated_rate_covered dd (i - 1) v j Hv).
      by replace (i - 1 + 1) with i by lia. }
  destruct Hcov as [Hde Hdd]. split_and!; [done..|].
  rewrite (init_assembled pad n c ke kd de dd Hde Hdd) in Hinit. by injection Hinit.
Qed.

(** X1.  The plan wires the stages: past the first, an encoder stage takes
    as many channels as the stage before it returns; the first decoder
    stage takes the bottleneck's [n * c] channels plus those of the deepest
    skip tensor; every other decoder stage takes what the decoder stage
    before it returns plus the channels of its own skip tensor. *)
Theorem channel_plan_wiring (n c : Z) :
  1 ≤ n →
  (∀ i, 1 ≤ i < n →
     ∃ a, UNet.encoder_out_channels_list n c !! Z.to_nat (i - 1) = Some a
          ∧ UNet.encoder_in_channels_list n c !! Z.to_nat i = Some a)
  ∧ (∃ s, UNet.encoder_out_channels_list n c !! Z.to_nat (n - 1) = Some s
          ∧ UNet.decoder_in_channels_list n c !! 0%nat = Some (n * c + s))
  ∧ (∀ i, 1 ≤ i < n →
       ∃ a s, UNet.decoder_out_channels_list n c !! Z.to_nat (i - 1) = Some a
              ∧ UNet.encoder_out_channels_list n c !! Z.to_nat (n - 1 - i) = Some s
              ∧ UNet.decoder_in_channels_list n c !! Z.to_nat i = Some (a + s)).
Proof.
  intros Hn. split_and!.
  - intros i Hi. exists (i * c). split.
    + rewrite encoder_out_lookup by lia. f_equal. lia.
    + rewrite encoder_in_lookup by lia. unfold stage_in. by rewrite decide_False by lia.
  - exists (n * c). split.
    + rewrite encoder_out_lookup by lia. f_equal. lia.
    + pose proof (decoder_in_lookup n c 0 ltac:(lia)) as Hdec0.
      change (Z.to_nat 0) with 0%nat in Hdec0. rewrite Hdec0. unfold stage_cat.
      rewrite decide_True by done. f_equal. lia.
  - intros i Hi. exists ((n - (i - 1)) * c), ((n - 1 - i + 1) * c). split_and!.
    + by rewrite decoder_out_lookup by lia.
    + by rewrite encoder_out_lookup by lia.
    + rewrite decoder_in_lookup by lia. unfold stage_cat.
      rewrite decide_False by lia. f_equal. lia.
Qed.

Lemma channel_plan_wiring_witness :
  ∃ a s, UNet.decoder_out_channels_list 12 24 !! Z.to_nat (1 - 1) = Some a
         ∧ UNet.encoder_out_channels_list 12 24 !! Z.to_nat (12 - 1 - 1) = Some s
         ∧ UNet.decoder_in_channels_list 12 24 !! Z.to_nat 1 = Some (a + s).
Proof.
  destruct (channel_plan_wiring 12 24 ltac:(lia)) as (_ & _ & Hdec).
  exact (Hdec 1 ltac:(lia)).
Defined.

(** X2.  With both dictionaries supplied, the constructor returns exactly
    when every layer of [1 .. n_layers] that a dictionary lists has a rate
    at the position where the layer is first listed. *)
Theorem init_succeeds_iff (pad : Z → Z → Z → Z → Z) (n c ke kd : Z) (de dd : DilationConfig) :
  (∃ net, UNet.__init__ pad n c ke kd (Some de) (Some dd) = OK net)
  ↔ rates_cover n de ∧ rates_cover n dd.
Proof.
  split.
  - intros [net Hinit]. apply init_OK_inv in Hinit as (? & ? & _). done.
  - intros [Hde Hdd]. eexists. by apply init_assembled.
Qed.

(** X3.  In a constructed network the dilation of layer [i] comes from the
    first position at which [layers] lists [i], also when [i] is listed
    again later, and a stored rate of 0 gives dilation 1. *)
Theorem dilation_first_listed (pad : Z → Z → Z → Z → Z) (n c ke kd : Z)
    (de dd : DilationConfig) (net : UNet.t) (i : Z) :
  UNet.__init__ pad n c ke kd (Some de) (Some dd) = OK net →
  1 ≤ i ≤ n →
  ∃ down up,
    UNet.encoder net !! Z.to_nat (i - 1) = Some down
    ∧ UNet.decoder net !! Z.to_nat (i - 1) = Some up
    ∧ (∀ (j : nat) r,
         list_find (λ y, y = i) (layers de) = Some (j, i) → dilated_rates de !! j = Some r →
         conv_dilation (DownSamplingLayer.main down) = Some (if decide (r = 0) then 1 else r))
    ∧ (∀ (j : nat) r,
         list_find (λ y, y = i) (layers dd) = Some (j, i) → dilated_rates dd !! j = Some r →
         conv_dilation (UpSamplingLayer.main up) = Some (if decide (r = 0) then 1 else r)).
Proof.
  intros Hinit Hi. apply init_OK_inv in Hinit as (_ & _ & ->).
  exists (encoder_stage pad c ke de (i - 1)), (decoder_stage pad n c kd dd (i - 1)).
  assert (Hrate : ∀ (d : DilationConfig) (j : nat) r,
            list_find (λ y, y = i) (layers d) = Some (j, i) → dilated_rates d !! j = Some r →
            stage_dilation d (i - 1 + 1) = if decide (r = 0) then 1 else r).
  { intros d j r Hj Hr. replace (i - 1 + 1) with i by lia.
    unfold stage_dilation. rewrite Hj, Hr. unfold UNet.rate_or_1. simpl.
    destruct (decide (r = 0)) as [->|Hr0]; [done|].
    by rewrite bool_decide_eq_true_2. }
  split_and!.
  - simpl. rewrite list_lookup_fmap, lookup_seqZ_lt by lia. simpl. do 2 f_equal. lia.
  - simpl. rewrite list_lookup_fmap, lookup_seqZ_lt by lia. simpl. do 2 f_equal. lia.
  - intros j r Hj Hr. simpl. f_equal. by eapply Hrate.
  - intros j r Hj Hr. simpl. f_equal. by eapply Hrate.
Qed.

Lemma dilation_first_listed_witness :
  let de := {| layers := [1; 2; 1]; dilated_rates := [0; 3; 5] |} in
  ∃ net down up,
    UNet.__init__ same_padding 2 4 15 5 (Some de) (Some no_dilation) = OK net
    ∧ UNet.encoder net !! Z.to_nat (1 - 1) = Some down
    ∧ UNet.decoder net !! Z.to_nat (1 - 1) = Some up
    ∧ conv_dilation (DownSamplingLayer.main down) = Some 1.
Proof.
  intros de. eexists.
  destruct (dilation_first_listed same_padding 2 4 15 5 de no_dilation _ 1 eq_refl ltac:(lia))
    as (down & up & Hdown & Hup & Hde & _).
  exists down, up. split_and!; [reflexivity|exact Hdown|exact Hup|].
  exact (Hde 0%nat 0 eq_refl eq_refl).
Defined.

Lemma lookup_dilated_rate_unlisted (d : DilationConfig) (i : Z) :
  i + 1 ∉ layers d → UNet.lookup_dilated_rate (Some d) i = OK None.
Proof.
  intros Hout. unfold UNet.lookup_dilated_rate.
  destruct (contains (i + 1) (layers d)) eqn:Hin; [|done].
  by apply contains_true in Hin.
Qed.

Lemma for_append_head_raise {A} (body : Z → result A) (e : exception) (i : Z) (iter : list Z) :
  body i = Raise e → for_append body (i :: iter) = Raise e.
Proof. intros Hbody. simpl. by rewrite Hbody. Qed.

(** X4.  Entries of a dictionary whose layer is outside [1 .. n_layers] are
    never looked up: a dictionary that lists only such layers, with any
    rates, builds what the empty dictionary builds. *)
Theorem outside_layers_ignored (pad : Z → Z → Z → Z → Z) (n c ke kd : Z)
    (d : DilationConfig) (other : option DilationConfig) :
  Forall (λ x, x < 1 ∨ n < x) (layers d) →
  UNet.__init__ pad n c ke kd (Some d) other
    = UNet.__init__ pad n c ke kd (Some no_dilation) other
  ∧ UNet.__init__ pad n c ke kd other (Some d)
    = UNet.__init__ pad n c ke kd other (Some no_dilation).
Proof.
  intros Hout.
  assert (Hsame : ∀ i, i ∈ range 0 n →
            UNet.lookup_dilated_rate (Some d) i
            = UNet.lookup_dilated_rate (Some no_dilation) i).
  { intros i Hi%elem_of_seqZ. rewrite !lookup_dilated_rate_unlisted; [done| |].
    - simpl. apply not_elem_of_nil.
    - intros Hin. pose proof (proj1 (Forall_forall _ _) Hout _ Hin) as Hx.
      simpl in Hx. lia. }
  unfold UNet.__init__. split.
  - f_equal. apply for_append_ext. intros i Hi. by rewrite (Hsame i Hi).
  - match goal with |- Py.bind ?m _ = _ => destruct m as [enc|e] end; [|done].
    cbn [Py.bind]. f_equal. apply for_append_ext. intros i Hi. by rewrite (Hsame i Hi).
Qed.

Lemma outside_layers_ignored_witness :
  UNet.__init__ same_padding 2 4 15 5 (Some {| layers := [5; 0]; dilated_rates := [3] |}) None
    = UNet.__init__ same_padding 2 4 15 5 (Some no_dilation) None
  ∧ UNet.__init__ same_padding 2 4 15 5 None (Some {| layers := [5; 0]; dilated_rates := [3] |})
    = UNet.__init__ same_padding 2 4 15 5 None (Some no_dilation).
Proof.
  apply (outside_layers_ignored same_padding 2 4 15 5
           {| layers := [5; 0]; dilated_rates := [3] |} None).
  repeat constructor; simpl; lia.
Defined.

(** X5.  For every [n_layers >= 1], whatever the other arguments, leaving
    out the encoder dictionary makes the constructor raise [TypeError], and
    so does leaving out the decoder dictionary when the encoder dictionary
    is one the first loop accepts. *)
Theorem missing_dictionary_raises (pad : Z → Z → Z → Z → Z) (n c ke kd : Z)
    (other : option DilationConfig) (de : DilationConfig) :
  1 ≤ n →
  UNet.__init__ pad n c ke kd None other = Raise TypeError
  ∧ (rates_cover n de → UNet.__init__ pad n c ke kd (Some de) None = Raise TypeError).
Proof.
  intros Hn.
  assert (Hrange : range 0 n = 0 :: seqZ 1 (n - 1)).
  { unfold range. rewrite seqZ_cons by lia. f_equal. f_equal; lia. }
  unfold UNet.__init__. rewrite Hrange. split.
  - by rewrite (for_append_head_raise _ TypeError).
  - intros Hde. rewrite <- Hrange.
    rewrite (for_append_ok _ (encoder_stage pad c ke de)); cycle 1.
    { intros i Hi%elem_of_seqZ.
      destruct (lookup_dilated_rate_ok n de i Hde) as (v & -> & Hv); [lia|]. simpl.
      rewrite (getitem_lookup _ _ _ (proj1 Hi) (encoder_in_lookup n c i ltac:(lia))). simpl.
      rewrite (getitem_lookup _ _ _ (proj1 Hi) (encoder_out_lookup n c i ltac:(lia))). simpl.
      by rewrite Hv. }
    cbn [Py.bind]. rewrite Hrange. by rewrite (for_append_head_raise _ TypeError).
Qed.

Lemma missing_dictionary_raises_witness :
  UNet.__init__ same_padding 1 4 15 5 None (Some no_dilation) = Raise TypeError
  ∧ (rates_cover 1 no_dilation →
     UNet.__init__ same_padding 1 4 15 5 (Some no_dilation) None = Raise TypeError).
Proof.
  apply (missing_dictionary_raises same_padding 1 4 15 5 (Some no_dilation) no_dilation).
  lia.
Defined.


(** * Further properties of the forward pass *)


(** Where the result of lines 142-143 lives. *)
Lemma head_result (c : Z) (o ipt : tensor) (σ σ' : store) (y : tensor) :
  (let* o := cat o ipt in
   Sequential.forward [ nn.Conv1d (1 + c) 1 1 1 0 1; nn.Tanh ] o) σ = (σ', OK y) →
  length σ' = (length σ + 3)%nat ∧ storage y = (length σ + 2)%nat ∧ step y = 1.
Proof.
  unfold torch.bind, cat. destruct (shape o) as [[n1 c1] l1], (shape ipt) as [[n2 c2] l2].
  case_bool_decide; [|done].
  cbn [alloc Sequential.forward Sequential.forward_module]. unfold torch.bind, conv1d.
  cbn [shape]. case_bool_decide; [|done].
  cbn [alloc torch.tanh ret]. intros [= <- <-]. simpl.
  rewrite !length_app. simpl. lia.
Qed.

(** X6.  The tensor the forward pass returns is contiguous and lives in a
    storage allocated during the call: it is never the input, a view of the
    input, or any tensor the caller already holds. *)
Theorem forward_result_fresh (pad : Z → Z → Z → Z → Z) (n c ke kd : Z)
    (oe od : option DilationConfig) (net : UNet.t) (ipt o : tensor) (σ σ' : store) :
  UNet.__init__ pad n c ke kd oe od = OK net →
  UNet.forward net ipt σ = (σ', OK o) →
  (length σ ≤ storage o < length σ')%nat ∧ step o = 1.
Proof.
  intros Hinit Hrun.
  destruct (init_starts_fresh _ _ _ _ _ _ _ _ Hinit) as (Henc & Hmid & Hdec & Hout).
  rewrite forward_unfold, bind_run in Hrun.
  match type of Hrun with
  | context [match ?m σ with _ => _ end] => destruct (m σ) as [σ1 r1] eqn:Hfeat
  end.
  destruct (keeps_features (length σ) net Henc Hmid Hdec ipt σ σ1 r1 (le_n _) Hfeat)
    as (Hlen & _ & _).
  destruct r1 as [o1|e]; [|done].
  rewrite Hout in Hrun. apply head_result in Hrun as (Hlen' & Hst & Hstep).
  split; [lia|done].
Qed.

Lemma forward_result_fresh_witness :
  ∃ net σ' o,
    UNet.__init__ same_padding 1 4 15 5 (Some no_dilation) (Some no_dilation) = OK net
    ∧ UNet.forward net (input 1 4) [Samples 0] = (σ', OK o)
    ∧ (1 ≤ storage o < length σ')%nat ∧ step o = 1.
Proof.
  exists (assembled same_padding 1 4 15 5 no_dilation no_dilation).
  assert (Hrun : ∃ σ' o, UNet.forward (assembled same_padding 1 4 15 5 no_dilation no_dilation)
                           (input 1 4) [Samples 0] = (σ', OK o)).
  { eexists _, _. vm_compute. reflexivity. }
  destruct Hrun as (σ' & o & Hrun). exists σ', o.
  split; [reflexivity|]. split; [exact Hrun|].
  exact (forward_result_fresh same_padding 1 4 15 5 (Some no_dilation) (Some no_dilation)
           (assembled same_padding 1 4 15 5 no_dilation no_dilation)
           (input 1 4) o [Samples 0] σ' eq_refl Hrun).
Defined.





(** X8.  The two block classes differ in where the activation writes,
    not in what they accept.  Built from the same arguments and applied to
    the same tensor, either both raise the same exception and leave the
    same store, or both return a contiguous tensor of the same shape in a
    storage allocated by the call; the encoder block allocates three
    storages for it, the decoder block two (its activation overwrites the
    normalised tensor). *)
Theorem blocks_agree (channel_in channel_out dilation kernel_size stride padding : Z)
    (x : tensor) (σ : store) :
  let down := DownSamplingLayer.forward
                (DownSamplingLayer.__init__ channel_in channel_out dilation kernel_size
                   stride padding) x σ in
  let up := UpSamplingLayer.forward
              (UpSamplingLayer.__init__ channel_in channel_out dilation kernel_size
                 stride padding) x σ in
  match down.2, up.2 with
  | OK y, OK z =>
      shape y = shape z ∧ step y = 1 ∧ step z = 1
      ∧ storage y = (length σ + 2)%nat ∧ storage z = (length σ + 1)%nat
      ∧ length down.1 = (length σ + 3)%nat ∧ length up.1 = (length σ + 2)%nat
  | Raise e, Raise e' => e = e' ∧ down.1 = up.1
  | _, _ => False
  end.
Proof.
  unfold DownSamplingLayer.forward, UpSamplingLayer.forward,
    DownSamplingLayer.__init__, UpSamplingLayer.__init__.
  cbn [DownSamplingLayer.main UpSamplingLayer.main Sequential.forward
       Sequential.forward_module].
  unfold torch.bind, conv1d. destruct (shape x) as [[b c] l].
  case_bool_decide; [|done].
  cbn [alloc]. unfold batch_norm. cbn [shape andb].
  case_bool_decide; [done|].
  rewrite bool_decide_eq_true_2 by done.
  cbn [alloc leaky_relu ret storage step fst snd shape].
  split_and!; [done..| | | |].
  - rewrite !length_app. simpl. lia.
  - rewrite !length_app. simpl. lia.
  - rewrite !length_app. simpl. lia.
  - rewrite length_alter, !length_app. simpl. lia.
Qed.

(** When the convolution of the first encoder stage rejects the input, the
    forward pass raises at once, before anything is allocated. *)
Lemma first_stage_rejects (pad : Z → Z → Z → Z → Z) (n c ke kd : Z) (de dd : DilationConfig)
    (ipt : tensor) (σ : store) :
  1 ≤ n →
  conv1d (stage_in c 0) ((0 + 1) * c) ke 1
    (pad (stage_in c 0) ke 1 (stage_dilation de (0 + 1))) (stage_dilation de (0 + 1)) ipt σ
    = (σ, Raise RuntimeError) →
  UNet.forward (assembled pad n c ke kd de dd) ipt σ = (σ, Raise RuntimeError).
Proof.
  intros Hn Hconv. unfold UNet.forward, UNet.encode.
  cbn [UNet.n_layers UNet.encoder assembled].
  assert (Hrange : range 0 n = 0 :: seqZ 1 (n - 1)).
  { unfold range. rewrite seqZ_cons by lia. f_equal. f_equal; lia. }
  rewrite Hrange. cbn [for_]. rewrite !bind_run. unfold lift at 1.
  rewrite getitem_fmap_seqZ by lia.
  unfold DownSamplingLayer.forward, encoder_stage, DownSamplingLayer.__init__.
  cbn [DownSamplingLayer.main Sequential.forward Sequential.forward_module].
  rewrite !bind_run. by rewrite Hconv.
Qed.

(** X9.  A constructed network accepts single-channel input only: on an
    input with any other number of channels the forward pass raises
    [RuntimeError] in its first convolution and leaves the store as it
    was. *)
Theorem forward_rejects_other_channels (pad : Z → Z → Z → Z → Z) (n c ke kd : Z)
    (de dd : DilationConfig) (net : UNet.t) (b ch L : Z) (ipt : tensor) (σ : store) :
  UNet.__init__ pad n c ke kd (Some de) (Some dd) = OK net →
  1 ≤ n → shape ipt = (b, ch, L) → ch ≠ 1 →
  UNet.forward net ipt σ = (σ, Raise RuntimeError).
Proof.
  intros Hinit Hn Hipt Hch. apply init_OK_inv in Hinit as (_ & _ & ->).
  apply first_stage_rejects; [done|].
  unfold conv1d. rewrite Hipt. rewrite bool_decide_eq_false_2; [done|].
  intros [Hc _]. by apply Hch.
Qed.

Lemma forward_rejects_other_channels_witness :
  ∃ net, UNet.__init__ same_padding 2 4 15 5 (Some no_dilation) (Some no_dilation) = OK net
    ∧ UNet.forward net {| storage := 0; step := 1; shape := (1, 2, 16) |} [Samples 0]
      = ([Samples 0], Raise RuntimeError).
Proof.
  eexists. split; [reflexivity|].
  apply (forward_rejects_other_channels same_padding 2 4 15 5 no_dilation no_dilation
           _ 1 2 16); [reflexivity|lia|reflexivity|lia].
Defined.

(** X10.  With a same-padding helper, an input without samples is
    rejected by the first convolution: the forward pass raises
    [RuntimeError] and leaves the store as it was, although 0 is a multiple
    of [2 ^ n_layers]. *)
Theorem forward_rejects_empty_input (pad : Z → Z → Z → Z → Z) (n c ke kd : Z)
    (de dd : DilationConfig) (net : UNet.t) (b : Z) (ipt : tensor) (σ : store) :
  UNet.__init__ pad n c ke kd (Some de) (Some dd) = OK net →
  1 ≤ n →
  (∀ l d, 2 * pad l ke 1 d = d * (ke - 1)) →
  shape ipt = (b, 1, 0) →
  UNet.forward net ipt σ = (σ, Raise RuntimeError).
Proof.
  intros Hinit Hn Hpad Hipt. apply init_OK_inv in Hinit as (_ & _ & ->).
  apply first_stage_rejects; [done|].
  unfold conv1d. rewrite Hipt. rewrite bool_decide_eq_false_2; [done|].
  intros (_ & _ & _ & _ & _ & Hlen). rewrite Hpad in Hlen. lia.
Qed.

Lemma forward_rejects_empty_input_witness :
  ∃ net, UNet.__init__ same_padding 2 4 15 5 (Some no_dilation) (Some no_dilation) = OK net
    ∧ UNet.forward net (input 1 0) [Samples 0] = ([Samples 0], Raise RuntimeError).
Proof.
  eexists. split; [reflexivity|].
  apply (forward_rejects_empty_input same_padding 2 4 15 5 no_dilation no_dilation _ 1);
    [reflexivity|lia| |reflexivity].
  intros l d. apply (same_padding_odd l 7 d).
Defined.

(** ** Exceptions of the forward pass *)

Lemma batch_single (b l : Z) : 0 ≤ b → b * l = 1 → b = 1.
Proof. intros Hb Hone. by apply Z.eq_mul_1_nonneg in Hone as [-> _]. Qed.

(** Every layer hands on the batch size it received. *)
Lemma module_exceptions (training : bool) (b : Z) (m : nn.module) (x : tensor) :
  0 ≤ b → batch x = b →
  outcome (Sequential.forward_module (nn.train training m) x)
    (λ y, batch y = b) (shape_or_single training b).
Proof.
  unfold batch, shape_or_single. intros Hb Hx σ σ' r.
  destruct m as [cin cout ks st p d|c mode|a inplace|]; simpl.
  - unfold conv1d. destruct (shape x) as [[n0 c0] l0]. simpl in Hx. subst n0.
    case_bool_decide; intros [= <- <-]; [done|by left].
  - unfold batch_norm. destruct (shape x) as [[n0 c0] l0]. simpl in Hx. subst n0.
    destruct training; simpl.
    + case_bool_decide as Hone.
      * intros [= <- <-]. right. split_and!; [done..|]. by apply (batch_single b l0).
      * case_bool_decide; intros [= <- <-]; [done|by left].
    + case_bool_decide; intros [= <- <-]; [done|by left].
  - unfold leaky_relu. destruct inplace; by intros [= <- <-].
  - by intros [= <- <-].
Qed.

Lemma sequential_exceptions (training : bool) (b : Z) (s : nn.Sequential) :
  0 ≤ b →
  ∀ x, batch x = b →
    outcome (Sequential.forward (Sequential.train training s) x)
      (λ y, batch y = b) (shape_or_single training b).
Proof.
  intros Hb. induction s as [|m s IH]; intros x Hx.
  - by apply outcome_ret.
  - unfold Sequential.train. rewrite fmap_cons. cbn [Sequential.forward].
    eapply outcome_bind; [by apply module_exceptions|]. intros y Hy. by apply IH.
Qed.

Lemma interpolate_exceptions (training : bool) (b : Z) (x : tensor) :
  batch x = b →
  outcome (interpolate x) (λ y, batch y = b) (shape_or_single training b).
Proof.
  unfold batch, shape_or_single, interpolate. intros Hx σ σ' r.
  destruct (shape x) as [[n0 c0] l0]. simpl in Hx. subst n0.
  case_bool_decide; intros [= <- <-]; [done|by left].
Qed.

Lemma cat_exceptions (training : bool) (b : Z) (x y : tensor) :
  batch x = b →
  outcome (cat x y) (λ z, batch z = b) (shape_or_single training b).
Proof.
  unfold batch, shape_or_single, cat. intros Hx σ σ' r.
  destruct (shape x) as [[n0 c0] l0], (shape y) as [[n1 c1] l1]. simpl in Hx. subst n0.
  case_bool_decide; intros [= <- <-]; [done|by left].
Qed.

Lemma every_second_batch (x : tensor) : batch (every_second x) = batch x.
Proof. unfold batch, every_second. by destruct (shape x) as [[? ?] ?]. Qed.

Lemma getitem_in_range {A} (l : list A) (i : Z) :
  0 ≤ i < len l → ∃ x, getitem l i = OK x.
Proof.
  unfold len. intros Hi.
  destruct (lookup_lt_is_Some_2 l (Z.to_nat i)) as [x Hx]; [lia|].
  exists x. apply getitem_lookup; [lia|done].
Qed.

Lemma range_to_nat (n : Z) : range 0 n = seqZ 0 (Z.of_nat (Z.to_nat n)).
Proof.
  unfold range. rewrite Z.sub_0_r.
  destruct (decide (0 ≤ n)); [by rewrite Z2Nat.id|].
  rewrite !seqZ_nil; [done|lia..].
Qed.

(** A constructed network has one encoder and one decoder block per
    layer, whatever the dictionaries. *)
Lemma init_lengths (pad : Z → Z → Z → Z → Z) (n c ke kd : Z)
    (oe od : option DilationConfig) (net : UNet.t) :
  UNet.__init__ pad n c ke kd oe od = OK net →
  UNet.n_layers net = n
  ∧ length (UNet.encoder net) = Z.to_nat n
  ∧ length (UNet.decoder net) = Z.to_nat n.
Proof.
  unfold UNet.__init__. intros Hinit.
  apply bind_OK_inv in Hinit as (enc & Henc & Hinit).
  apply bind_OK_inv in Hinit as (dec & Hdec & [= <-]). simpl.
  apply for_append_inv, Forall2_length in Henc.
  apply for_append_inv, Forall2_length in Hdec.
  unfold range in *. rewrite length_seqZ in *. split_and!; [done|lia..].
Qed.

(** Every lookup of the forward pass is in range, so what it raises is
    raised by a layer, an interpolation or a concatenation. *)
Lemma forward_exceptions (training : bool) (n b : Z) (self : UNet.t) (ipt : tensor) :
  UNet.n_layers self = n →
  length (UNet.encoder self) = Z.to_nat n →
  length (UNet.decoder self) = Z.to_nat n →
  0 ≤ b → batch ipt = b →
  outcome (UNet.forward (UNet.train training self) ipt)
    (λ _, True) (shape_or_single training b).
Proof.
  intros Hn Henc Hdec Hb Hipt.
  unfold UNet.forward, UNet.encode, UNet.decode.
  cbn [UNet.train UNet.n_layers UNet.encoder UNet.middle UNet.decoder UNet.out].
  rewrite Hn, range_to_nat.
  eapply outcome_bind.
  { apply (outcome_for _ (λ i s, 0 ≤ i ∧ length s.2 = Z.to_nat i ∧ batch s.1 = b));
      [done|].
    intros i [o tmp] Hi (_ & Hlen & Ho). simpl in Hlen, Ho.
    destruct (getitem_in_range (DownSamplingLayer.train training <$> UNet.encoder self) i)
      as [layer Hlayer]; [unfold len; rewrite length_fmap; lia|].
    rewrite Hlayer.
    apply getitem_elem_of, list_elem_of_fmap in Hlayer as (layer0 & -> & _).
    eapply outcome_bind; [eapply (outcome_lift _ (λ y, y = _)); reflexivity|].
    intros layer' ->. cbv beta.
    eapply outcome_bind.
    { unfold DownSamplingLayer.forward, DownSamplingLayer.train.
      cbn [DownSamplingLayer.main]. by apply sequential_exceptions. }
    intros o' Ho'. cbv beta in Ho'.
    apply outcome_ret. simpl. rewrite length_app, Hlen, every_second_batch. simpl.
    split_and!; [lia|lia|done]. }
  intros [o tmp] (_ & Hlen & Ho). simpl in Hlen, Ho. rewrite Z.add_0_l, Nat2Z.id in Hlen.
  eapply outcome_bind; [by apply sequential_exceptions|]. intros o1 Ho1. cbv beta in Ho1.
  eapply outcome_bind.
  { eapply outcome_impl; [|intros a Ha; exact Ha|intros e He; exact He].
    apply (outcome_for _ (λ _ s, batch s = b)); [done|].
    intros i o2 Hi Ho2.
    eapply outcome_bind; [by apply interpolate_exceptions|]. intros o3 Ho3. cbv beta in Ho3.
    destruct (getitem_in_range tmp (n - i - 1)) as [skip ->]; [unfold len; lia|].
    eapply outcome_bind; [by apply (outcome_lift _ (λ _, True))|]. intros skip' _.
    eapply outcome_bind; [by apply cat_exceptions|]. intros o4 Ho4. cbv beta in Ho4.
    destruct (getitem_in_range (UpSamplingLayer.train training <$> UNet.decoder self) i)
      as [layer Hlayer]; [unfold len; rewrite length_fmap; lia|].
    rewrite Hlayer.
    apply getitem_elem_of, list_elem_of_fmap in Hlayer as (layer0 & -> & _).
    eapply outcome_bind; [eapply (outcome_lift _ (λ y, y = _)); reflexivity|].
    intros layer' ->. cbv beta.
    unfold UpSamplingLayer.forward, UpSamplingLayer.train.
    cbn [UpSamplingLayer.main]. by apply sequential_exceptions. }
  intros o5 Ho5. cbv beta in Ho5.
  eapply outcome_bind; [by apply cat_exceptions|]. intros o6 Ho6. cbv beta in Ho6.
  eapply outcome_bind; [by apply sequential_exceptions|]. intros o7 _.
  by apply outcome_ret.
Qed.

(** X11.  The forward pass of a constructed network never fails in a
    lookup: for every input, [self.encoder[i]], [tmp[self.n_layers - i - 1]]
    and [self.decoder[i]] are in range.  What it raises is the
    [RuntimeError] of a shape check or, in training mode and on a batch of
    one only, the [ValueError] of a normalisation; in evaluation mode it
    raises nothing but [RuntimeError]. *)
Theorem forward_raises_shape_or_single (pad : Z → Z → Z → Z → Z) (n c ke kd : Z)
    (oe od : option DilationConfig) (net : UNet.t) (b ch L : Z) (ipt : tensor) :
  UNet.__init__ pad n c ke kd oe od = OK net →
  0 ≤ b → shape ipt = (b, ch, L) →
  ∀ σ σ' e,
    (UNet.forward net ipt σ = (σ', Raise e) →
     e = RuntimeError ∨ (e = ValueError ∧ b = 1))
    ∧ (UNet.forward (UNet.eval net) ipt σ = (σ', Raise e) → e = RuntimeError).
Proof.
  intros Hinit Hb Hipt σ σ' e.
  destruct (init_lengths _ _ _ _ _ _ _ _ Hinit) as (Hn & Henc & Hdec).
  assert (Hbatch : batch ipt = b) by (unfold batch; by rewrite Hipt).
  split; intros Hrun.
  - rewrite <- (init_train_true _ _ _ _ _ _ _ _ Hinit) in Hrun.
    destruct (forward_exceptions true n b net ipt Hn Henc Hdec Hb Hbatch _ _ _ Hrun)
      as [?|(? & _ & ?)]; auto.
  - by destruct (forward_exceptions false n b net ipt Hn Henc Hdec Hb Hbatch _ _ _ Hrun)
      as [?|(_ & ? & _)].
Qed.

Lemma forward_raises_shape_or_single_witness :
  ∃ net,
    UNet.__init__ same_padding 2 4 15 5 (Some no_dilation) (Some no_dilation) = OK net
    ∧ ∀ σ σ' e,
        (UNet.forward net (input 1 3) σ = (σ', Raise e) →
         e = RuntimeError ∨ (e = ValueError ∧ 1 = 1))
        ∧ (UNet.forward (UNet.eval net) (input 1 3) σ = (σ', Raise e) → e = RuntimeError).
Proof.
  eexists. split; [reflexivity|].
  apply (forward_raises_shape_or_single same_padding 2 4 15 5 (Some no_dilation)
           (Some no_dilation) _ 1 1 3); [reflexivity|lia|reflexivity].
Defined.

(** X12.  With same-length encoder convolutions the encoder loop hands the
    bottleneck [ceil(L / 2^n_layers)] samples, which is [L / 2^n_layers]
    when that division is exact, and the skip tensor of stage [j] has
    [ceil(L / 2^j)] samples.  The loop returns in evaluation mode, and in
    training mode, the mode of a network fresh from the constructor,
    unless the last encoder block receives a single value per channel
    ([b * ceil(L / 2^(n_layers-1)) = 1]). *)
Theorem encode_lengths (pad : Z → Z → Z → Z → Z) (n c ke kd : Z) (de dd : DilationConfig)
    (b L : Z) (ipt : tensor) (σ : store) :
  1 ≤ n → 0 < ke →
  (∀ l d, 0 < d → 2 * pad l ke 1 d = d * (ke - 1)) →
  length (layers de) = length (dilated_rates de) →
  length (layers dd) = length (dilated_rates dd) →
  Forall (λ r, 0 < r) (dilated_rates de) →
  1 ≤ L → shape ipt = (b, 1, L) →
  ∃ net, UNet.__init__ pad n c ke kd (Some de) (Some dd) = OK net
    ∧ ∀ self,
        self = UNet.eval net
        ∨ (self = net ∧ b * ((L + 2 ^ (n - 1) - 1) / 2 ^ (n - 1)) ≠ 1) →
        ∃ σ' o tmp, UNet.encode self ipt σ = (σ', OK (o, tmp))
          ∧ shape o = (b, n * c, (L + 2 ^ n - 1) / 2 ^ n)
          ∧ ((2 ^ n | L) → shape o = (b, n * c, L / 2 ^ n))
          ∧ ∀ j, 0 ≤ j < n →
              ∃ t, tmp !! Z.to_nat j = Some t
                   ∧ shape t = (b, (j + 1) * c, (L + 2 ^ j - 1) / 2 ^ j).
Proof.
  intros Hn Hke Hpe Hle Hld Hre HL Hipt.
  exists (assembled pad n c ke kd de dd).
  assert (Hinit : UNet.__init__ pad n c ke kd (Some de) (Some dd)
                  = OK (assembled pad n c ke kd de dd))
    by (apply init_assembled; by apply equal_lengths_cover).
  split; [done|]. intros self Hself.
  assert (Hrun : ∃ training, self = UNet.train training (assembled pad n c ke kd de dd)
                   ∧ ∀ j, 0 ≤ j < n → ¬ (training = true ∧ b * halved j L = 1)).
  { destruct Hself as [->|[-> Hone]].
    - exists false. split; [done|]. by intros j _ [? _].
    - exists true. split; [by rewrite (init_train_true _ _ _ _ _ _ _ _ Hinit)|].
      intros j Hj [_ Hj1]. apply Hone.
      by apply (single_value_deeper b j (n - 1) L); [|lia|]. }
  destruct Hrun as (training & -> & Hbn).
  pose proof (encode_run pad n c ke kd de dd b L training Hn Hke Hpe Hre HL ipt Hipt)
    as Henc. cbv zeta in Henc.
  apply outcome_yields in Henc; cycle 1.
  { intros e (j & Hj & _ & Htr & Hone). by apply (Hbn j). }
  destruct (Henc σ) as (σ' & [o tmp] & Hrun & Ho & _ & Htmp). simpl in Ho, Htmp.
  exists σ', o, tmp. split_and!; [done|done| |done].
  intros Hdiv. rewrite Ho. do 2 f_equal.
  assert (Hpow : 0 < 2 ^ n) by (apply Z.pow_pos_nonneg; lia).
  rewrite (halved_divide n L) at 2 by (done || lia).
  by rewrite Z.div_mul by lia.
Qed.

Lemma encode_lengths_witness :
  ∃ net, UNet.__init__ same_padding 2 4 15 5 (Some no_dilation) (Some no_dilation) = OK net
    ∧ ∀ self,
        self = UNet.eval net
        ∨ (self = net ∧ 1 * ((17 + 2 ^ (2 - 1) - 1) / 2 ^ (2 - 1)) ≠ 1) →
        ∃ σ' o tmp, UNet.encode self (input 1 17) [Samples 0] = (σ', OK (o, tmp))
          ∧ shape o = (1, 2 * 4, (17 + 2 ^ 2 - 1) / 2 ^ 2)
          ∧ ((2 ^ 2 | 17) → shape o = (1, 2 * 4, 17 / 2 ^ 2))
          ∧ ∀ j, 0 ≤ j < 2 →
              ∃ t, tmp !! Z.to_nat j = Some t
                   ∧ shape t = (1, (j + 1) * 4, (17 + 2 ^ j - 1) / 2 ^ j).
Proof.
  apply (encode_lengths same_padding 2 4 15 5 no_dilation no_dilation 1 17); try done.
  intros l d _. apply (same_padding_odd l 7 d).
Defined.
